(** * Validation engine of the [atom] package

    A shallow embedding of [validation.go] and of the data model of
    [feed.go], followed by the properties of the validators.

    - Go strings are byte strings: [string].
    - A Go pointer that may be [nil] ([*Text], [*Generator], [*Source],
      [*Feed]) is an [option].
    - The receiver [errs] of every validator is a pointer to a
      [ValidationError] that the body mutates: the embedding threads it
      through a state monad [M], which also carries run-time panics
      (nil dereference, failed type assertion).
    - [url.Parse], [mail.ParseAddress] and [time.Parse] belong to Go's
      library; the development is parameterised by them.
    - A feed is a finite tree.  A source whose feed points back to a
      feed that encloses it, on which the recursion of the Go code would
      not end, has no counterpart here. *)

From Stdlib Require Import String Ascii List Bool Arith Lia.
Import ListNotations.
Open Scope string_scope.
Open Scope list_scope.

Set Implicit Arguments.

(* ================================================================= *)
(** ** Data model ([feed.go]) *)

Record xml_Name := mk_xml_Name { Space : string; Local : string }.

Record Common := mkCommon {
  Base : string;
  Lang : string
}.

Record Text := mkText {
  Text_Common : Common;
  Text_Type : string;
  Text_Src : string;
  Text_Body : string
}.

Record Extension := mkExtension {
  Extension_XMLName : xml_Name;
  Extension_XML : string
}.

Record Person := mkPerson {
  Person_Common : Common;
  Person_Name : string;
  Person_URI : string;
  Person_Email : string;
  Person_Extension : list Extension
}.

Definition TimeStr := string.

Record Category := mkCategory {
  Category_Common : Common;
  Category_Term : string;
  Category_Scheme : string;
  Category_Label : string
}.

Record Generator := mkGenerator {
  Generator_Common : Common;
  Generator_URI : string;
  Generator_Version : string;
  Generator_Text : string
}.

Record Link := mkLink {
  Link_Common : Common;
  Link_Href : string;
  Link_Rel : string;
  Link_Type : string;
  Link_HrefLang : string;
  Link_Title : string;
  Link_Length : string
}.

(** [Feed] holds its entries by value ([[]Entry]); an [Entry] points to a
    [Source], which points to a [Feed]. *)
Inductive Feed : Type := mkFeed {
  Feed_XMLName : xml_Name;
  Feed_Common : Common;
  Feed_Author : list Person;
  Feed_Category : list Category;
  Feed_Contributor : list Person;
  Feed_Generator : option Generator;
  Feed_Icon : string;
  Feed_ID : string;
  Feed_Link : list Link;
  Feed_Logo : string;
  Feed_Rights : string;
  Feed_Subtitle : string;
  Feed_Title : string;
  Feed_Updated : TimeStr;
  Feed_Entry : list Entry;
  Feed_Extension : list Extension
}
with Entry : Type := mkEntry {
  Entry_XMLName : xml_Name;
  Entry_Common : Common;
  Entry_Author : list Person;
  Entry_Category : list Category;
  Entry_Content : option Text;
  Entry_Contributor : list Person;
  Entry_ID : string;
  Entry_Link : list Link;
  Entry_Published : TimeStr;
  Entry_Rights : string;
  Entry_Source : option Source;
  Entry_Summary : option Text;
  Entry_Title : string;
  Entry_Updated : TimeStr;
  Entry_Extension : list Extension
}
with Source : Type := mkSource {
  Source_Feed : option Feed
}.

(* ================================================================= *)
(** ** Errors, panics and the validator monad *)

(** [type ValidationError struct { issues []string }] *)
Record ValidationError := mkValidationError { issues : list string }.

(** A non-nil value of Go's [error] interface: either a
    [*ValidationError] or an error of another concrete type, of which
    only the text of [Error()] is observed. *)
Inductive error_value :=
| EValidation (err : ValidationError)
| EForeign (msg : string).

(** The interface [error]; [None] is [nil]. *)
Definition error := option error_value.

Inductive panic := NilDereference | TypeAssertion.

Inductive outcome (A : Type) :=
| Returns (a : A)
| Panics (p : panic).
Arguments Panics {A} p.

Definition M (A : Type) := ValidationError -> outcome (A * ValidationError).

Definition ret {A} (a : A) : M A := fun errs => Returns (a, errs).

Definition bind {A B} (m : M A) (k : A -> M B) : M B :=
  fun errs =>
    match m errs with
    | Returns (a, errs') => k a errs'
    | Panics p => Panics p
    end.

Definition raise {A} (p : panic) : M A := fun _ => Panics p.

(** Evaluation of a call whose result is used by the caller. *)
Definition call {A} (o : outcome A) : M A :=
  fun errs =>
    match o with
    | Returns a => Returns (a, errs)
    | Panics p => Panics p
    end.

Notation "x <- m ;; k" := (bind m (fun x => k))
  (at level 61, m at next level, right associativity).
Notation "m ;; k" := (bind m (fun _ => k))
  (at level 61, right associativity).

(** [var errs = new(ValidationError)] followed by the body. *)
Definition with_new_errs {A} (body : M A) : outcome A :=
  match body (mkValidationError []) with
  | Returns (a, _) => Returns a
  | Panics p => Panics p
  end.

Section Loops.
Context {A : Type}.

(** [for _, x := range l { body }] *)
Section Range.
Variable body : A -> M unit.
Fixpoint for_range (l : list A) : M unit :=
  match l with
  | [] => ret tt
  | x :: l' => body x ;; for_range l'
  end.
End Range.

(** A range loop whose body updates a local variable. *)
Section RangeLocal.
Context {L : Type}.
Variable body : A -> L -> M L.
Fixpoint for_range_local (l : list A) (local : L) : M L :=
  match l with
  | [] => ret local
  | x :: l' => local' <- body x local ;; for_range_local l' local'
  end.
End RangeLocal.

(** A range loop whose body may [break]: the body answers [true] to
    leave the loop. *)
Section RangeBreak.
Variable body : A -> M bool.
Fixpoint for_range_break (l : list A) : M unit :=
  match l with
  | [] => ret tt
  | x :: l' =>
      stop <- body x ;;
      if stop then ret tt else for_range_break l'
  end.
End RangeBreak.
End Loops.

(** Go's line feed and quotation mark escapes. *)
Definition LF : string := String (ascii_of_nat 10) EmptyString.
Definition QUOTE : string := String (ascii_of_nat 34) EmptyString.

(** The issue about a second link whose [rel] is [alternate]; the
    literal quotes the word alternate. *)
Definition alternate_issue : string :=
  ("Only one Feed.Link with rel=" ++ QUOTE ++ "alternate" ++ QUOTE
   ++ " can exist.")%string.

(** [func (err *ValidationError) Error() string] *)
Definition ValidationError_Error (err : ValidationError) : string :=
  let result := ("An ATOM validation error occured:" ++ LF)%string in
  fold_left (fun result issue => (result ++ ("- " ++ issue ++ LF))%string)
            (issues err) result.

(** [Error()] of an arbitrary non-nil error. *)
Definition error_Error (e : error_value) : string :=
  match e with
  | EValidation err => ValidationError_Error err
  | EForeign msg => msg
  end.

(** [func (err *ValidationError) Merge(other error)] *)
Definition Merge (other : error) : M unit :=
  match other with
  | None => ret tt
  | Some (EValidation o) =>
      fun err => Returns (tt, mkValidationError (issues err ++ issues o))
  | Some (EForeign _) => raise TypeAssertion
  end.

(** [func (err *ValidationError) Add(issue string)] *)
Definition Add (issue : string) : M unit :=
  fun err => Returns (tt, mkValidationError (issues err ++ [issue])).

(** [func (err *ValidationError) AddErr(issue error)] *)
Definition AddErr (issue : error) : M unit :=
  match issue with
  | None => raise NilDereference
  | Some e =>
      fun err => Returns (tt, mkValidationError (issues err ++ [error_Error e]))
  end.

(** [func (err *ValidationError) NilIfEmpty() error] *)
Definition NilIfEmpty : M error :=
  fun err =>
    if (length (issues err) =? 0)%nat then Returns (None, err)
    else Returns (Some (EValidation err), err).

(* ================================================================= *)
(** ** The validators ([validation.go]) *)

Section Validators.

(** The syntax checkers of Go's library.  Each answers [None] when the
    text parses and [Some msg] when it does not, [msg] being the text
    of the returned error. *)
Variable url_Parse : string -> option string.
Variable mail_ParseAddress : string -> option string.
Variable time_Parse : string -> option string.

(** The [error] result of a checker. *)
Definition foreign (r : option string) : error :=
  match r with
  | Some msg => Some (EForeign msg)
  | None => None
  end.

(** [if _, err := parse(s); err != nil { errs.AddErr(err) }] *)
Definition check_parse (parse : string -> option string) (s : string)
  : M unit :=
  match foreign (parse s) with
  | Some err => AddErr (Some err)
  | None => ret tt
  end.

(** [func validateCommon(common Common) error] *)
Definition validateCommon (common : Common) : outcome error :=
  with_new_errs (
    (if Base common =? "" then ret tt
     else check_parse url_Parse (Base common)) ;;
    NilIfEmpty).

(** [func (text *Text) validate(isContent bool) error] *)
Definition Text_validate (text : Text) (isContent : bool)
  : outcome error :=
  with_new_errs (
    (other <- call (validateCommon (Text_Common text)) ;; Merge other) ;;
    (if negb isContent then
       if negb (Text_Type text =? "") then
         if negb (Text_Type text =? "text")
            && negb (Text_Type text =? "html")
            && negb (Text_Type text =? "xhtml")
         then Add "Text.Type must be either: text, html or xhtml."
         else ret tt
       else ret tt
     else ret tt) ;;
    (if negb (Text_Src text =? "") then check_parse url_Parse (Text_Src text)
     else ret tt) ;;
    NilIfEmpty).

(** [func (person *Person) validate() error] *)
Definition Person_validate (person : Person) : outcome error :=
  with_new_errs (
    (other <- call (validateCommon (Person_Common person)) ;; Merge other) ;;
    (if negb (Person_URI person =? "")
     then check_parse url_Parse (Person_URI person)
     else ret tt) ;;
    (if negb (Person_Email person =? "")
     then check_parse mail_ParseAddress (Person_Email person)
     else ret tt) ;;
    NilIfEmpty).

(** [func (timeStr *TimeStr) validate() error] *)
Definition TimeStr_validate (timeStr : TimeStr) : outcome error :=
  with_new_errs (
    check_parse time_Parse timeStr ;;
    NilIfEmpty).

(** [func (category *Category) validate() error] *)
Definition Category_validate (category : Category) : outcome error :=
  with_new_errs (
    (other <- call (validateCommon (Category_Common category)) ;;
     Merge other) ;;
    (if negb (Category_Scheme category =? "")
     then check_parse url_Parse (Category_Scheme category)
     else ret tt) ;;
    NilIfEmpty).

(** [func (generator *Generator) validate() error] *)
Definition Generator_validate (generator : Generator) : outcome error :=
  with_new_errs (
    (other <- call (validateCommon (Generator_Common generator)) ;;
     Merge other) ;;
    (if negb (Generator_URI generator =? "")
     then check_parse url_Parse (Generator_URI generator)
     else ret tt) ;;
    NilIfEmpty).

(** [func (link *Link) validate() error] *)
Definition Link_validate (link : Link) : outcome error :=
  with_new_errs (
    (other <- call (validateCommon (Link_Common link)) ;; Merge other) ;;
    check_parse url_Parse (Link_Href link) ;;
    NilIfEmpty).

(** The body of the loop over links shared by [Entry.Validate] and
    [Feed.Validate]; [foundAlternate] is the loop's local variable. *)
Definition link_loop_body (link : Link) (foundAlternate : bool) : M bool :=
  (other <- call (Link_validate link) ;; Merge other) ;;
  if Link_Rel link =? "alternate" then
    if foundAlternate then
      Add alternate_issue ;;
      ret foundAlternate
    else ret true
  else ret foundAlternate.

(** [func (entry *Entry) Validate() error] and
    [func (feed *Feed) Validate() error] *)
Fixpoint Entry_Validate (entry : Entry) : outcome error :=
  with_new_errs (
    (other <- call (validateCommon (Entry_Common entry)) ;; Merge other) ;;
    for_range (fun author =>
      other <- call (Person_validate author) ;; Merge other)
      (Entry_Author entry) ;;
    for_range (fun cat =>
      other <- call (Category_validate cat) ;; Merge other)
      (Entry_Category entry) ;;
    match Entry_Content entry with
    | Some content =>
        other <- call (Text_validate content true) ;; Merge other
    | None => ret tt
    end ;;
    for_range (fun contrib =>
      other <- call (Person_validate contrib) ;; Merge other)
      (Entry_Contributor entry) ;;
    (if Entry_ID entry =? "" then Add "Entry.ID can't be empty."
     else ret tt) ;;
    _ <- for_range_local link_loop_body (Entry_Link entry) false ;;
    (if negb (Entry_Published entry =? "") then
       other <- call (TimeStr_validate (Entry_Published entry)) ;;
       Merge other
     else ret tt) ;;
    match Entry_Source entry with
    | Some source =>
        match Source_Feed source with
        | Some feed =>
            if (0 <? length (Feed_Entry feed))%nat
            then Add "Entry.Source can't contain any entries."
            else ret tt
        | None => raise NilDereference
        end
    | None => ret tt
    end ;;
    match Entry_Summary entry with
    | Some summary =>
        other <- call (Text_validate summary false) ;; Merge other
    | None => ret tt
    end ;;
    (if Entry_Title entry =? "" then Add "Entry.Title can't be empty."
     else ret tt) ;;
    (if negb (Entry_Updated entry =? "") then
       other <- call (TimeStr_validate (Entry_Updated entry)) ;;
       Merge other
     else Add "Entry.Updated can't be empty.") ;;
    match Entry_Source entry with
    | Some source =>
        match Source_Feed source with
        | Some feed => other <- call (Feed_Validate feed) ;; Merge other
        | None => raise NilDereference
        end
    | None => ret tt
    end ;;
    NilIfEmpty)

with Feed_Validate (feed : Feed) : outcome error :=
  with_new_errs (
    (other <- call (validateCommon (Feed_Common feed)) ;; Merge other) ;;
    for_range (fun author =>
      other <- call (Person_validate author) ;; Merge other)
      (Feed_Author feed) ;;
    (if (length (Feed_Author feed) =? 0)%nat then
       for_range_break (fun entry =>
         if (length (Entry_Author entry) =? 0)%nat then
           Add "Author must be present in Feed or in every Entry." ;;
           ret true
         else ret false)
         (Feed_Entry feed)
     else ret tt) ;;
    for_range (fun cat =>
      other <- call (Category_validate cat) ;; Merge other)
      (Feed_Category feed) ;;
    for_range (fun contrib =>
      other <- call (Person_validate contrib) ;; Merge other)
      (Feed_Contributor feed) ;;
    match Feed_Generator feed with
    | Some generator =>
        other <- call (Generator_validate generator) ;; Merge other
    | None => ret tt
    end ;;
    (if negb (Feed_Icon feed =? "")
     then check_parse url_Parse (Feed_Icon feed)
     else ret tt) ;;
    (if Feed_ID feed =? "" then Add "Feed.ID can't be empty."
     else ret tt) ;;
    _ <- for_range_local link_loop_body (Feed_Link feed) false ;;
    (if negb (Feed_Logo feed =? "")
     then check_parse url_Parse (Feed_Logo feed)
     else ret tt) ;;
    (if Feed_Title feed =? "" then Add "Feed.Title can't be empty."
     else ret tt) ;;
    (if Feed_Updated feed =? "" then Add "Feed.Updated can't be empty."
     else ret tt) ;;
    (if negb (Feed_Updated feed =? "") then
       other <- call (TimeStr_validate (Feed_Updated feed)) ;;
       Merge other
     else Add "Feed.Updated can't be empty.") ;;
    for_range (fun entry =>
      other <- call (Entry_Validate entry) ;; Merge other)
      (Feed_Entry feed) ;;
    NilIfEmpty).

End Validators.

(* ================================================================= *)
(** ** What a validator appends, as lists *)

(** The issues carried by an [error] handed to [Merge]. *)
Definition issues_of (e : error) : list string :=
  match e with
  | Some (EValidation err) => issues err
  | _ => []
  end.

(** The issues of the result of a call; a call that panics reports
    nothing. *)
Definition reported (o : outcome error) : list string :=
  match o with
  | Returns e => issues_of e
  | Panics _ => []
  end.

(** The [error] that [NilIfEmpty] answers for a list of issues. *)
Definition error_of (l : list string) : error :=
  match l with
  | [] => None
  | _ :: _ => Some (EValidation (mkValidationError l))
  end.

(** The visible effect of a command of [M]: its answer together with
    the issues it appended, or a panic. *)
Definition effect (A : Type) := outcome (A * list string).

Definition apply_effect {A} (o : effect A) (errs : ValidationError)
  : outcome (A * ValidationError) :=
  match o with
  | Returns (a, l) => Returns (a, mkValidationError (issues errs ++ l))
  | Panics p => Panics p
  end.

Definition performs {A} (m : M A) (o : effect A) : Prop :=
  forall errs, m errs = apply_effect o errs.

Definition effect_bind {A B} (o : effect A) (k : A -> effect B) : effect B :=
  match o with
  | Returns (a, l) =>
      match k a with
      | Returns (b, l') => Returns (b, l ++ l')
      | Panics p => Panics p
      end
  | Panics p => Panics p
  end.

(** The effect of [errs.Merge(o)] where [o] is the outcome of the call
    that computes the argument. *)
Definition merged (o : outcome error) : effect unit :=
  match o with
  | Returns None => Returns (tt, [])
  | Returns (Some (EValidation err)) => Returns (tt, issues err)
  | Returns (Some (EForeign _)) => Panics TypeAssertion
  | Panics p => Panics p
  end.

(** The effect of a range loop whose body merges a call per element. *)
Fixpoint merged_all {A} (validate : A -> outcome error) (l : list A)
  : effect unit :=
  match l with
  | [] => Returns (tt, [])
  | x :: l' => effect_bind (merged (validate x))
                           (fun _ => merged_all validate l')
  end.

(** The result of a validator whose body has effect [o]. *)
Definition finish (o : effect unit) : outcome error :=
  match o with
  | Returns (_, l) => Returns (error_of l)
  | Panics p => Panics p
  end.

(** A command that appends the issues [l] and answers [tt]. *)
Definition appends (m : M unit) (l : list string) : Prop :=
  performs m (Returns (tt, l)).

(** A validator body started on an aggregator that already holds
    [l0]. *)
Definition run_from {A} (l0 : list string) (body : M A) : outcome A :=
  match body (mkValidationError l0) with
  | Returns (a, _) => Returns a
  | Panics p => Panics p
  end.

Section Issues.
Variable url_Parse : string -> option string.
Variable mail_ParseAddress : string -> option string.
Variable time_Parse : string -> option string.

Definition parse_issues (parse : string -> option string) (s : string)
  : list string :=
  match parse s with
  | Some msg => [msg]
  | None => []
  end.

Definition optional_issues (parse : string -> option string) (s : string)
  : list string :=
  if s =? "" then [] else parse_issues parse s.

Definition Common_issues (common : Common) : list string :=
  optional_issues url_Parse (Base common).

Definition Text_Type_enumerated (text : Text) : bool :=
  (Text_Type text =? "text") || (Text_Type text =? "html")
  || (Text_Type text =? "xhtml").

Definition Text_Type_issues (text : Text) (isContent : bool) : list string :=
  if isContent then []
  else if Text_Type text =? "" then []
  else if Text_Type_enumerated text then []
  else ["Text.Type must be either: text, html or xhtml."].

Definition Text_issues (text : Text) (isContent : bool) : list string :=
  Common_issues (Text_Common text)
  ++ Text_Type_issues text isContent
  ++ optional_issues url_Parse (Text_Src text).

Definition Person_issues (person : Person) : list string :=
  Common_issues (Person_Common person)
  ++ optional_issues url_Parse (Person_URI person)
  ++ optional_issues mail_ParseAddress (Person_Email person).

Definition TimeStr_issues (timeStr : TimeStr) : list string :=
  parse_issues time_Parse timeStr.

Definition Category_issues (category : Category) : list string :=
  Common_issues (Category_Common category)
  ++ optional_issues url_Parse (Category_Scheme category).

Definition Generator_issues (generator : Generator) : list string :=
  Common_issues (Generator_Common generator)
  ++ optional_issues url_Parse (Generator_URI generator).

Definition Link_issues (link : Link) : list string :=
  Common_issues (Link_Common link)
  ++ parse_issues url_Parse (Link_Href link).

Definition is_alternate (link : Link) : bool :=
  Link_Rel link =? "alternate".

(** The issues of the loop over links, entered with the given value
    of [foundAlternate]. *)
Fixpoint Links_issues (links : list Link) (foundAlternate : bool)
  : list string :=
  match links with
  | [] => []
  | link :: links' =>
      Link_issues link
      ++ (if is_alternate link && foundAlternate
          then [alternate_issue] else [])
      ++ Links_issues links' (foundAlternate || is_alternate link)
  end.

Definition option_issues {A} (f : A -> list string) (o : option A)
  : list string :=
  match o with
  | Some a => f a
  | None => []
  end.

Definition required (field issue : string) : list string :=
  if field =? "" then [issue] else [].

(** [Entry.Validate], lines 170-207. *)
Definition Entry_issues_to_Published (entry : Entry) : list string :=
  Common_issues (Entry_Common entry)
  ++ flat_map Person_issues (Entry_Author entry)
  ++ flat_map Category_issues (Entry_Category entry)
  ++ option_issues (fun content => Text_issues content true)
                   (Entry_Content entry)
  ++ flat_map Person_issues (Entry_Contributor entry)
  ++ required (Entry_ID entry) "Entry.ID can't be empty."
  ++ Links_issues (Entry_Link entry) false
  ++ optional_issues time_Parse (Entry_Published entry).

(** [Entry.Validate], lines 209-213, for a source whose feed is
    [feed]. *)
Definition Source_entries_issues (feed : Feed) : list string :=
  if (0 <? length (Feed_Entry feed))%nat
  then ["Entry.Source can't contain any entries."] else [].

(** [Entry.Validate], lines 223-227. *)
Definition Entry_Updated_issues (entry : Entry) : list string :=
  if Entry_Updated entry =? "" then ["Entry.Updated can't be empty."]
  else TimeStr_issues (Entry_Updated entry).

(** [Entry.Validate], lines 215-227. *)
Definition Entry_issues_from_Summary (entry : Entry) : list string :=
  option_issues (fun summary => Text_issues summary false)
                (Entry_Summary entry)
  ++ required (Entry_Title entry) "Entry.Title can't be empty."
  ++ Entry_Updated_issues entry.

Definition lacks_author (entry : Entry) : bool :=
  (length (Entry_Author entry) =? 0)%nat.

(** [Feed.Validate], lines 249-256. *)
Definition Author_rule_issues (feed : Feed) : list string :=
  if (length (Feed_Author feed) =? 0)%nat
     && existsb lacks_author (Feed_Entry feed)
  then ["Author must be present in Feed or in every Entry."] else [].

(** [Feed.Validate], lines 303-311. *)
Definition Feed_Updated_issues (feed : Feed) : list string :=
  if Feed_Updated feed =? ""
  then ["Feed.Updated can't be empty."; "Feed.Updated can't be empty."]
  else TimeStr_issues (Feed_Updated feed).

(** [Feed.Validate], lines 242-247. *)
Definition Feed_issues_to_Author (feed : Feed) : list string :=
  Common_issues (Feed_Common feed)
  ++ flat_map Person_issues (Feed_Author feed).

(** [Feed.Validate], lines 258-278. *)
Definition Feed_issues_to_ID (feed : Feed) : list string :=
  flat_map Category_issues (Feed_Category feed)
  ++ flat_map Person_issues (Feed_Contributor feed)
  ++ option_issues Generator_issues (Feed_Generator feed)
  ++ optional_issues url_Parse (Feed_Icon feed)
  ++ required (Feed_ID feed) "Feed.ID can't be empty.".

(** [Feed.Validate], lines 293-301. *)
Definition Feed_issues_Logo_Title (feed : Feed) : list string :=
  optional_issues url_Parse (Feed_Logo feed)
  ++ required (Feed_Title feed) "Feed.Title can't be empty.".

(** [Feed.Validate], lines 242-301: everything before the tests of
    [Updated]. *)
Definition Feed_issues_before_Updated (feed : Feed) : list string :=
  Feed_issues_to_Author feed
  ++ Author_rule_issues feed
  ++ Feed_issues_to_ID feed
  ++ Links_issues (Feed_Link feed) false
  ++ Feed_issues_Logo_Title feed.

(** [Feed.Validate], lines 242-311: everything before the loop over
    the entries. *)
Definition Feed_own_issues (feed : Feed) : list string :=
  Feed_issues_before_Updated feed ++ Feed_Updated_issues feed.

End Issues.

(* ================================================================= *)
(** ** Feeds without nil source pointers *)

(** [Source.Feed] is a pointer, and [Entry.Validate] reads through it
    without a test.  [Entry_sound] says that no source reached from the
    entry has a nil [Feed]. *)
Fixpoint Feed_sound (feed : Feed) : bool :=
  forallb Entry_sound (Feed_Entry feed)
with Entry_sound (entry : Entry) : bool :=
  match Entry_Source entry with
  | Some source =>
      match Source_Feed source with
      | Some feed => Feed_sound feed
      | None => false
      end
  | None => true
  end.

(** The feed embedded in the source of an entry, when both pointers are
    set. *)
Definition Entry_source_feed (entry : Entry) : option Feed :=
  match Entry_Source entry with
  | Some source => Source_Feed source
  | None => None
  end.

(** Mutual induction over feeds and entries. *)
Section FeedInduction.
Variable P : Feed -> Prop.
Variable Q : Entry -> Prop.
Hypothesis HFeed : forall feed, Forall Q (Feed_Entry feed) -> P feed.
Hypothesis HEntry : forall entry,
  match Entry_source_feed entry with
  | Some feed => P feed
  | None => True
  end -> Q entry.

Fixpoint Feed_mutind (feed : Feed) : P feed :=
  HFeed feed
    ((fix entries (l : list Entry) : Forall Q l :=
        match l with
        | [] => Forall_nil Q
        | entry :: l' => Forall_cons entry (Entry_mutind entry) (entries l')
        end) (Feed_Entry feed))
with Entry_mutind (entry : Entry) : Q entry :=
  HEntry entry
    (match Entry_Source entry as o
       return match match o with
                    | Some source => Source_Feed source
                    | None => None
                    end with
              | Some feed => P feed
              | None => True
              end
     with
     | Some source =>
         match Source_Feed source as o
           return match o with Some feed => P feed | None => True end
         with
         | Some feed => Feed_mutind feed
         | None => I
         end
     | None => I
     end).
End FeedInduction.

Section NestedIssues.
Variable url_Parse : string -> option string.
Variable mail_ParseAddress : string -> option string.
Variable time_Parse : string -> option string.

(** What the loop over the entries of a feed merges (lines 313-315). *)
Definition Entries_issues (entries : list Entry) : list string :=
  flat_map (fun entry =>
    reported (Entry_Validate url_Parse mail_ParseAddress time_Parse entry))
    entries.

(** What the validation of the source feed of an entry merges
    (lines 229-231). *)
Definition Entry_nested_issues (entry : Entry) : list string :=
  match Entry_source_feed entry with
  | Some feed =>
      reported (Feed_Validate url_Parse mail_ParseAddress time_Parse feed)
  | None => []
  end.

(** What the test of the source's entries adds (lines 209-213). *)
Definition Entry_Source_issues (entry : Entry) : list string :=
  option_issues Source_entries_issues (Entry_source_feed entry).

(** The issues of [Entry.Validate] in the order the code adds them. *)
Definition Entry_all_issues (entry : Entry) : list string :=
  Entry_issues_to_Published url_Parse mail_ParseAddress time_Parse entry
  ++ Entry_Source_issues entry
  ++ Entry_issues_from_Summary url_Parse time_Parse entry
  ++ Entry_nested_issues entry.

(** The issues of [Feed.Validate] in the order the code adds them. *)
Definition Feed_all_issues (feed : Feed) : list string :=
  Feed_own_issues url_Parse mail_ParseAddress time_Parse feed
  ++ Entries_issues (Feed_Entry feed).

(** The outcome of [Feed.Validate]: the report above, or a panic on a
    nil source feed. *)
Definition Feed_outcome (feed : Feed) : Prop :=
  Feed_Validate url_Parse mail_ParseAddress time_Parse feed
  = if Feed_sound feed
    then Returns (error_of (Feed_all_issues feed))
    else Panics NilDereference.

(** The outcome of [Entry.Validate], likewise. *)
Definition Entry_outcome (entry : Entry) : Prop :=
  Entry_Validate url_Parse mail_ParseAddress time_Parse entry
  = if Entry_sound entry
    then Returns (error_of (Entry_all_issues entry))
    else Panics NilDereference.

End NestedIssues.

(* ================================================================= *)
(** ** Two time parsers *)

Section Agreement.
Variable url_Parse : string -> option string.
Variable mail_ParseAddress : string -> option string.
Variables time_Parse time_Parse' : string -> option string.

(** The validators answer the same with either parser. *)
Definition Feed_agree (feed : Feed) : Prop :=
  Feed_Validate url_Parse mail_ParseAddress time_Parse feed
  = Feed_Validate url_Parse mail_ParseAddress time_Parse' feed.

Definition Entry_agree (entry : Entry) : Prop :=
  Entry_Validate url_Parse mail_ParseAddress time_Parse entry
  = Entry_Validate url_Parse mail_ParseAddress time_Parse' entry.

End Agreement.

(* ================================================================= *)
(** ** Rendering and result shapes *)

(** One line of a rendered [ValidationError]. *)
Definition issue_line (issue : string) : string :=
  ("- " ++ issue ++ LF)%string.

(** The lines of the issues, one after the other. *)
Definition issue_lines (l : list string) : string :=
  fold_right String.append "" (map issue_line l).

(** The dynamic type that [Merge] asserts of a non-nil argument. *)
Definition nil_or_ValidationError (e : error) : Prop :=
  match e with
  | None => True
  | Some (EValidation _) => True
  | Some (EForeign _) => False
  end.

(** An outcome that [Merge] accepts, and that did not stop on a failed
    type assertion. *)
Definition assertion_safe (o : outcome error) : Prop :=
  match o with
  | Returns e => nil_or_ValidationError e
  | Panics p => p = NilDereference
  end.

(* ================================================================= *)
(** ** The entry validator as the specification words it *)

(** The report of an entry following the words of the specification
    (section 4.3, steps 1 to 12): step 9 adds the issue about the
    entries of the source and, at that same step, merges the validation
    of the source feed, before the summary, the title and [Updated] are
    looked at. *)
Definition Entry_issues_as_specified
    (url_Parse mail_ParseAddress time_Parse : string -> option string)
    (entry : Entry) : list string :=
  Entry_issues_to_Published url_Parse mail_ParseAddress time_Parse entry
  ++ Entry_Source_issues entry
  ++ Entry_nested_issues url_Parse mail_ParseAddress time_Parse entry
  ++ Entry_issues_from_Summary url_Parse time_Parse entry.

(* ================================================================= *)
(** ** Counting issues *)

(** How many times an issue occurs in a report. *)
Definition occurrences (issue : string) (l : list string) : nat :=
  length (filter (String.eqb issue) l).

(** The number of links whose [rel] is [alternate]. *)
Definition count_alternate (links : list Link) : nat :=
  length (filter is_alternate links).

(** The number of alternate links the loop over links complains about
    when entered with the given value of [foundAlternate]. *)
Definition extra_alternates (links : list Link) (foundAlternate : bool)
  : nat :=
  if foundAlternate then count_alternate links
  else count_alternate links - 1.

(** A syntax checker that never answers the text [issue].  The messages
    of Go's checkers start with [parse], [mail:] and [parsing time], so
    that none of them is an issue text of this package. *)
Definition never_says (parse : string -> option string) (issue : string)
  : Prop :=
  forall s, parse s <> Some issue.

(* ================================================================= *)
(** ** Sample documents *)

(** A syntax checker that accepts every text. *)
Definition accept_all (_ : string) : option string := None.

Definition no_name : xml_Name := mk_xml_Name "" "".
Definition no_common : Common := mkCommon "" "".

Definition sample_person : Person :=
  mkPerson no_common "John Doe" "http://john.doe" "john@test.com" [].

Definition alternate_link : Link :=
  mkLink no_common "http://www.test.com/blog2" "alternate" "" "de" "" "".

(** A feed that has the required fields, the given authors, links and
    entries, and nothing else. *)
Definition sample_feed (authors : list Person) (links : list Link)
    (entries : list Entry) : Feed :=
  mkFeed no_name no_common authors [] [] None "" "http://www.test.com/blog"
         links "" "" "" "Test feed" "2006-11-04T09:11:03-08:00" entries [].

(** An entry that has the required fields, the given authors, content,
    source and summary, and nothing else. *)
Definition sample_entry (authors : list Person) (content : option Text)
    (source : option Source) (summary : option Text) : Entry :=
  mkEntry no_name no_common authors [] content [] "http://www.test.com/1" []
          "" "" source summary "Test entry" "2006-11-04T09:11:03-08:00" [].

(** A feed with three alternate links. *)
Definition feed_three_alternates : Feed :=
  sample_feed [sample_person]
              [alternate_link; alternate_link; alternate_link] [].

(** A feed without authors whose only entry has an author, and a source
    whose feed has neither an author nor an entry with one. *)
Definition feed_nested_author_issue : Feed :=
  sample_feed [] []
    [sample_entry [sample_person] None
       (Some (mkSource (Some (sample_feed [] []
                                [sample_entry [] None None None]))))
       None].

(** A feed without authors, two of whose entries have no author. *)
Definition feed_two_entries_lack_author : Feed :=
  sample_feed [] []
    [sample_entry [] None None None; sample_entry [sample_person] None None None;
     sample_entry [] None None None].


(** A feed without title that keeps an entry, as the source of an
    entry. *)
Definition untitled_source_feed : Feed :=
  mkFeed no_name no_common [sample_person] [] [] None ""
         "http://www.test.com/blog" [] "" "" "" ""
         "2006-11-04T09:11:03-08:00"
         [sample_entry [sample_person] None None None] [].

(** An entry without title whose source is [untitled_source_feed]. *)
Definition entry_untitled_source : Entry :=
  mkEntry no_name no_common [sample_person] [] None []
          "http://www.test.com/1" [] "" ""
          (Some (mkSource (Some untitled_source_feed))) None ""
          "2006-11-04T09:11:03-08:00" [].

(** A text whose type is none of the three enumerated ones. *)
Definition invalid_text : Text := mkText no_common "invalid" "" "body".


(** A category whose fields are all empty, its term included. *)
Definition empty_category : Category := mkCategory no_common "" "" "".

(** An entry whose source has a nil feed. *)
Definition entry_nil_source_feed : Entry :=
  sample_entry [sample_person] None (Some (mkSource None)) None.

(* ================================================================= *)
(** ** What the validators accept *)

Section Acceptance.
Variable url_Parse : string -> option string.
Variable mail_ParseAddress : string -> option string.
Variable time_Parse : string -> option string.

(** The checker returns no error. *)
Definition accepts (parse : string -> option string) (s : string) : bool :=
  match parse s with
  | Some _ => false
  | None => true
  end.

(** A field that is only looked at when it is set. *)
Definition accepts_optional (parse : string -> option string) (s : string)
  : bool :=
  (s =? "") || accepts parse s.

Definition Common_ok (common : Common) : bool :=
  accepts_optional url_Parse (Base common).

Definition Text_ok (text : Text) (isContent : bool) : bool :=
  Common_ok (Text_Common text)
  && (isContent || (Text_Type text =? "") || Text_Type_enumerated text)
  && accepts_optional url_Parse (Text_Src text).

Definition Person_ok (person : Person) : bool :=
  Common_ok (Person_Common person)
  && accepts_optional url_Parse (Person_URI person)
  && accepts_optional mail_ParseAddress (Person_Email person).

Definition Category_ok (category : Category) : bool :=
  Common_ok (Category_Common category)
  && accepts_optional url_Parse (Category_Scheme category).

Definition Generator_ok (generator : Generator) : bool :=
  Common_ok (Generator_Common generator)
  && accepts_optional url_Parse (Generator_URI generator).

Definition Link_ok (link : Link) : bool :=
  Common_ok (Link_Common link) && accepts url_Parse (Link_Href link).

(** Every link passes and at most one of them is an alternate. *)
Definition Links_ok (links : list Link) : bool :=
  forallb Link_ok links && (count_alternate links <=? 1)%nat.

Definition option_ok {A} (ok : A -> bool) (o : option A) : bool :=
  match o with
  | Some a => ok a
  | None => true
  end.

(** A time that is set and parses. *)
Definition TimeStr_required_ok (t : TimeStr) : bool :=
  negb (t =? "") && accepts time_Parse t.

(** The tests of [Feed.Validate] before the loop over the entries
    (lines 242-311). *)
Definition Feed_own_ok (feed : Feed) : bool :=
  Common_ok (Feed_Common feed)
  && forallb Person_ok (Feed_Author feed)
  && negb ((length (Feed_Author feed) =? 0)%nat
           && existsb lacks_author (Feed_Entry feed))
  && forallb Category_ok (Feed_Category feed)
  && forallb Person_ok (Feed_Contributor feed)
  && option_ok Generator_ok (Feed_Generator feed)
  && accepts_optional url_Parse (Feed_Icon feed)
  && negb (Feed_ID feed =? "")
  && Links_ok (Feed_Link feed)
  && accepts_optional url_Parse (Feed_Logo feed)
  && negb (Feed_Title feed =? "")
  && TimeStr_required_ok (Feed_Updated feed).

(** The tests of [Entry.Validate] that do not look at the source
    (lines 170-207 and 215-227). *)
Definition Entry_own_ok (entry : Entry) : bool :=
  Common_ok (Entry_Common entry)
  && forallb Person_ok (Entry_Author entry)
  && forallb Category_ok (Entry_Category entry)
  && option_ok (fun content => Text_ok content true) (Entry_Content entry)
  && forallb Person_ok (Entry_Contributor entry)
  && negb (Entry_ID entry =? "")
  && Links_ok (Entry_Link entry)
  && accepts_optional time_Parse (Entry_Published entry)
  && option_ok (fun summary => Text_ok summary false) (Entry_Summary entry)
  && negb (Entry_Title entry =? "")
  && TimeStr_required_ok (Entry_Updated entry).

(** The documents on which the validators find nothing: every test
    passes, every entry is valid, and a source holds a valid feed
    without entries. *)
Fixpoint Feed_valid (feed : Feed) : bool :=
  Feed_own_ok feed && forallb Entry_valid (Feed_Entry feed)
with Entry_valid (entry : Entry) : bool :=
  Entry_own_ok entry
  && match Entry_Source entry with
     | Some source =>
         match Source_Feed source with
         | Some feed =>
             (length (Feed_Entry feed) =? 0)%nat && Feed_valid feed
         | None => false
         end
     | None => true
     end.

End Acceptance.

(* ================================================================= *)
(** ** The fields no validator reads *)

Definition erase_Common (common : Common) : Common :=
  mkCommon (Base common) "".

Definition erase_Text (text : Text) : Text :=
  mkText (erase_Common (Text_Common text)) (Text_Type text) (Text_Src text) "".

Definition erase_Person (person : Person) : Person :=
  mkPerson (erase_Common (Person_Common person)) ""
           (Person_URI person) (Person_Email person) [].

Definition erase_Category (category : Category) : Category :=
  mkCategory (erase_Common (Category_Common category)) ""
             (Category_Scheme category) "".

Definition erase_Generator (generator : Generator) : Generator :=
  mkGenerator (erase_Common (Generator_Common generator))
              (Generator_URI generator) "" "".

Definition erase_Link (link : Link) : Link :=
  mkLink (erase_Common (Link_Common link)) (Link_Href link) (Link_Rel link)
         "" "" "" "".

(** The document with every field that the validators do not read set
    to its zero value: [XMLName], [Lang], [Body], [Name], [Term],
    [Label], [Version], [Text], the attributes of a link other than
    [Href] and [Rel], [Rights], [Subtitle] and the extensions. *)
Fixpoint erase_Feed (feed : Feed) : Feed :=
  mkFeed no_name (erase_Common (Feed_Common feed))
         (map erase_Person (Feed_Author feed))
         (map erase_Category (Feed_Category feed))
         (map erase_Person (Feed_Contributor feed))
         (option_map erase_Generator (Feed_Generator feed))
         (Feed_Icon feed) (Feed_ID feed)
         (map erase_Link (Feed_Link feed))
         (Feed_Logo feed) "" "" (Feed_Title feed) (Feed_Updated feed)
         (map erase_Entry (Feed_Entry feed)) []
with erase_Entry (entry : Entry) : Entry :=
  mkEntry no_name (erase_Common (Entry_Common entry))
          (map erase_Person (Entry_Author entry))
          (map erase_Category (Entry_Category entry))
          (option_map erase_Text (Entry_Content entry))
          (map erase_Person (Entry_Contributor entry))
          (Entry_ID entry)
          (map erase_Link (Entry_Link entry))
          (Entry_Published entry) ""
          (match Entry_Source entry with
           | Some source =>
               Some (mkSource
                       (match Source_Feed source with
                        | Some feed => Some (erase_Feed feed)
                        | None => None
                        end))
           | None => None
           end)
          (option_map erase_Text (Entry_Summary entry))
          (Entry_Title entry) (Entry_Updated entry) [].

(** The text holds no line feed. *)
Fixpoint no_LF (s : string) : bool :=
  match s with
  | EmptyString => true
  | String c s' => negb (Ascii.eqb c (ascii_of_nat 10)) && no_LF s'
  end.

(** [s] occurs in [t]. *)
Definition contains (t s : string) : Prop :=
  exists before after, t = (before ++ s ++ after)%string.

(** A feed that passes every test, with an entry that does. *)
Definition valid_feed : Feed :=
  sample_feed [sample_person] [alternate_link]
              [sample_entry [sample_person] None None None].

(** An entry whose source is a feed without entries. *)
Definition entry_with_source : Entry :=
  sample_entry [sample_person] None
    (Some (mkSource (Some (sample_feed [sample_person] [] [])))) None.

(** A feed that passes every test and whose entry has a source. *)
Definition valid_feed_with_source : Feed :=
  sample_feed [sample_person] [alternate_link] [entry_with_source].

(** An aggregator that holds two issues. *)
Definition two_issues : ValidationError :=
  mkValidationError ["Feed.ID can't be empty."; "Feed.Title can't be empty."].



(** An entry with [invalid_text] as content and no summary, whose source
    feed keeps an entry that has [invalid_text] as summary. *)
Definition entry_content_invalid_nested : Entry :=
  sample_entry [sample_person] (Some invalid_text)
    (Some (mkSource
             (Some (sample_feed [sample_person] []
                      [sample_entry [sample_person] None None
                                    (Some invalid_text)]))))
    None.

(** A feed one of whose entries has a source with a nil feed. *)
Definition feed_nil_source_feed : Feed :=
  sample_feed [sample_person] [] [entry_nil_source_feed].

(* ================================================================= *)
(** ** The calculus of effects *)

Lemma with_new_errs_run A (body : M A) :
  with_new_errs body = run_from [] body.
Proof. reflexivity. Qed.

Lemma performs_ret A (a : A) : performs (ret a) (Returns (a, [])).
Proof. intros [l]. unfold ret. simpl. now rewrite app_nil_r. Qed.

Lemma appends_ret : appends (ret tt) [].
Proof. apply performs_ret. Qed.

Lemma performs_raise A p : performs (@raise A p) (Panics p).
Proof. intros errs. reflexivity. Qed.

Lemma appends_Add issue : appends (Add issue) [issue].
Proof. intros errs. reflexivity. Qed.

Lemma performs_bind A B (m : M A) (k : A -> M B) o ok :
  performs m o -> (forall a, performs (k a) (ok a)) ->
  performs (bind m k) (effect_bind o ok).
Proof.
  intros Hm Hk errs. unfold bind. rewrite Hm.
  destruct o as [[a l]|p]; simpl; [|reflexivity].
  rewrite Hk. destruct (ok a) as [[b l']|p]; simpl; [|reflexivity].
  now rewrite app_assoc.
Qed.

Lemma appends_seq (m1 m2 : M unit) l1 l2 :
  appends m1 l1 -> appends m2 l2 -> appends (m1 ;; m2) (l1 ++ l2).
Proof.
  intros H1 H2.
  exact (@performs_bind _ _ m1 (fun _ => m2) _ (fun _ => Returns (tt, l2))
           H1 (fun _ => H2)).
Qed.

Lemma run_from_bind A B (m : M A) (k : A -> M B) a l l0 :
  performs m (Returns (a, l)) ->
  run_from l0 (bind m k) = run_from (l0 ++ l) (k a).
Proof. intros Hm. unfold run_from, bind. now rewrite Hm. Qed.

Lemma run_from_bind_effect A B (m : M A) (k : A -> M B) o l0 :
  performs m o ->
  run_from l0 (bind m k) =
  match o with
  | Returns (a, l) => run_from (l0 ++ l) (k a)
  | Panics p => Panics p
  end.
Proof.
  intros Hm. unfold run_from, bind. rewrite Hm.
  now destruct o as [[a l]|p].
Qed.

Lemma run_from_NilIfEmpty l0 : run_from l0 NilIfEmpty = Returns (error_of l0).
Proof. now destruct l0. Qed.

Lemma merged_error_of l : merged (Returns (error_of l)) = Returns (tt, l).
Proof. now destruct l. Qed.

Lemma issues_of_error_of l : issues_of (error_of l) = l.
Proof. now destruct l. Qed.

Lemma performs_merge_call (o : outcome error) :
  performs (other <- call o ;; Merge other) (merged o).
Proof.
  intros [l]. unfold bind, call.
  destruct o as [[[err|msg]|]|p]; simpl; try reflexivity.
  unfold ret. now rewrite app_nil_r.
Qed.

Lemma appends_merge_call (o : outcome error) l :
  o = Returns (error_of l) -> appends (other <- call o ;; Merge other) l.
Proof.
  intros ->. unfold appends. rewrite <- merged_error_of.
  apply performs_merge_call.
Qed.

Lemma appends_for_range A (body : A -> M unit) f l :
  (forall x, appends (body x) (f x)) ->
  appends (for_range body l) (flat_map f l).
Proof.
  intros Hbody. induction l as [|x l IH]; simpl.
  - apply appends_ret.
  - now apply appends_seq.
Qed.

Lemma performs_for_range_merge A (validate : A -> outcome error) l :
  performs (for_range (fun x => other <- call (validate x) ;; Merge other) l)
           (merged_all validate l).
Proof.
  induction l as [|x l IH]; simpl.
  - apply performs_ret.
  - apply performs_bind; [apply performs_merge_call | intros _; exact IH].
Qed.

Lemma appends_check_parse parse s :
  appends (check_parse parse s) (parse_issues parse s).
Proof.
  unfold check_parse, parse_issues.
  destruct (parse s); simpl; [intros errs; reflexivity | apply appends_ret].
Qed.

Lemma appends_optional parse s :
  appends (if negb (s =? "") then check_parse parse s else ret tt)
          (optional_issues parse s).
Proof.
  unfold optional_issues. destruct (s =? ""); simpl.
  - apply appends_ret.
  - apply appends_check_parse.
Qed.

Lemma appends_required field issue :
  appends (if field =? "" then Add issue else ret tt) (required field issue).
Proof.
  unfold required. destruct (field =? "").
  - apply appends_Add.
  - apply appends_ret.
Qed.

Lemma appends_required_bool (b : bool) issue :
  appends (if b then Add issue else ret tt) (if b then [issue] else []).
Proof. destruct b; [apply appends_Add | apply appends_ret]. Qed.

Lemma appends_option A (body : A -> M unit) f (o : option A) :
  (forall a, appends (body a) (f a)) ->
  appends (match o with Some a => body a | None => ret tt end)
          (option_issues f o).
Proof.
  intros Hbody. destruct o; simpl; [apply Hbody | apply appends_ret].
Qed.

Lemma appends_author_rule (feed : Feed) :
  appends
    (if (length (Feed_Author feed) =? 0)%nat then
       for_range_break (fun entry =>
         if (length (Entry_Author entry) =? 0)%nat then
           Add "Author must be present in Feed or in every Entry." ;;
           ret true
         else ret false)
         (Feed_Entry feed)
     else ret tt)
    (Author_rule_issues feed).
Proof.
  unfold Author_rule_issues.
  destruct (length (Feed_Author feed) =? 0)%nat; simpl;
    [|apply appends_ret].
  induction (Feed_Entry feed) as [|entry entries IH]; simpl.
  - apply appends_ret.
  - unfold lacks_author at 1.
    destruct (length (Entry_Author entry) =? 0)%nat; simpl.
    + intros errs. reflexivity.
    + intros errs. unfold bind at 1. simpl. apply IH.
Qed.

(* ================================================================= *)
(** ** Closed forms of the validators *)

Section ClosedForms.
Variable url_Parse : string -> option string.
Variable mail_ParseAddress : string -> option string.
Variable time_Parse : string -> option string.

Local Abbreviation Common_issues' := (Common_issues url_Parse).
Local Abbreviation Text_issues' := (Text_issues url_Parse).
Local Abbreviation Person_issues' := (Person_issues url_Parse mail_ParseAddress).
Local Abbreviation TimeStr_issues' := (TimeStr_issues time_Parse).
Local Abbreviation Category_issues' := (Category_issues url_Parse).
Local Abbreviation Generator_issues' := (Generator_issues url_Parse).
Local Abbreviation Link_issues' := (Link_issues url_Parse).
Local Abbreviation Links_issues' := (Links_issues url_Parse).
Local Abbreviation Entry_Validate' :=
  (Entry_Validate url_Parse mail_ParseAddress time_Parse).
Local Abbreviation Feed_Validate' :=
  (Feed_Validate url_Parse mail_ParseAddress time_Parse).
Local Abbreviation Feed_outcome' :=
  (Feed_outcome url_Parse mail_ParseAddress time_Parse).
Local Abbreviation Entry_outcome' :=
  (Entry_outcome url_Parse mail_ParseAddress time_Parse).

Ltac start_validator :=
  rewrite with_new_errs_run.
Ltac step H :=
  rewrite (run_from_bind _ _ H).
Ltac finish_validator :=
  rewrite run_from_NilIfEmpty; simpl; rewrite <- ?app_assoc; reflexivity.

Lemma validateCommon_eq common :
  validateCommon url_Parse common = Returns (error_of (Common_issues' common)).
Proof.
  unfold validateCommon. start_validator.
  assert (H : appends (if Base common =? "" then ret tt
                       else check_parse url_Parse (Base common))
                      (Common_issues' common)).
  { unfold Common_issues', optional_issues.
    destruct (Base common =? "");
      [apply appends_ret | apply appends_check_parse]. }
  step H. finish_validator.
Qed.

Lemma appends_Common common :
  appends (other <- call (validateCommon url_Parse common) ;; Merge other)
          (Common_issues' common).
Proof. apply appends_merge_call, validateCommon_eq. Qed.

Lemma appends_Text_Type text isContent :
  appends
    (if negb isContent then
       if negb (Text_Type text =? "") then
         if negb (Text_Type text =? "text")
            && negb (Text_Type text =? "html")
            && negb (Text_Type text =? "xhtml")
         then Add "Text.Type must be either: text, html or xhtml."
         else ret tt
       else ret tt
     else ret tt)
    (Text_Type_issues text isContent).
Proof.
  unfold Text_Type_issues, Text_Type_enumerated.
  destruct isContent; simpl; [apply appends_ret|].
  destruct (Text_Type text =? ""); simpl; [apply appends_ret|].
  destruct (Text_Type text =? "text"), (Text_Type text =? "html"),
    (Text_Type text =? "xhtml"); simpl;
    first [apply appends_ret | apply appends_Add].
Qed.

Lemma Text_validate_eq text isContent :
  Text_validate url_Parse text isContent
  = Returns (error_of (Text_issues' text isContent)).
Proof.
  unfold Text_validate, Text_issues. start_validator.
  step (appends_Common (Text_Common text)).
  step (appends_Text_Type text isContent).
  step (appends_optional url_Parse (Text_Src text)).
  finish_validator.
Qed.

Lemma Person_validate_eq person :
  Person_validate url_Parse mail_ParseAddress person
  = Returns (error_of (Person_issues' person)).
Proof.
  unfold Person_validate, Person_issues. start_validator.
  step (appends_Common (Person_Common person)).
  step (appends_optional url_Parse (Person_URI person)).
  step (appends_optional mail_ParseAddress (Person_Email person)).
  finish_validator.
Qed.

Lemma TimeStr_validate_eq timeStr :
  TimeStr_validate time_Parse timeStr
  = Returns (error_of (TimeStr_issues' timeStr)).
Proof.
  unfold TimeStr_validate, TimeStr_issues. start_validator.
  step (appends_check_parse time_Parse timeStr).
  finish_validator.
Qed.

Lemma Category_validate_eq category :
  Category_validate url_Parse category
  = Returns (error_of (Category_issues' category)).
Proof.
  unfold Category_validate, Category_issues. start_validator.
  step (appends_Common (Category_Common category)).
  step (appends_optional url_Parse (Category_Scheme category)).
  finish_validator.
Qed.

Lemma Generator_validate_eq generator :
  Generator_validate url_Parse generator
  = Returns (error_of (Generator_issues' generator)).
Proof.
  unfold Generator_validate, Generator_issues. start_validator.
  step (appends_Common (Generator_Common generator)).
  step (appends_optional url_Parse (Generator_URI generator)).
  finish_validator.
Qed.

Lemma Link_validate_eq link :
  Link_validate url_Parse link = Returns (error_of (Link_issues' link)).
Proof.
  unfold Link_validate, Link_issues. start_validator.
  step (appends_Common (Link_Common link)).
  step (appends_check_parse url_Parse (Link_Href link)).
  finish_validator.
Qed.

Lemma appends_Persons persons :
  appends
    (for_range (fun author =>
       other <- call (Person_validate url_Parse mail_ParseAddress author) ;;
       Merge other) persons)
    (flat_map Person_issues' persons).
Proof.
  apply appends_for_range. intros x.
  apply appends_merge_call, Person_validate_eq.
Qed.

Lemma appends_Categories categories :
  appends
    (for_range (fun cat =>
       other <- call (Category_validate url_Parse cat) ;; Merge other)
       categories)
    (flat_map Category_issues' categories).
Proof.
  apply appends_for_range. intros x.
  apply appends_merge_call, Category_validate_eq.
Qed.

Lemma appends_Text_option isContent (o : option Text) :
  appends
    (match o with
     | Some text =>
         other <- call (Text_validate url_Parse text isContent) ;;
         Merge other
     | None => ret tt
     end)
    (option_issues (fun text => Text_issues' text isContent) o).
Proof.
  apply (appends_option (fun text =>
    other <- call (Text_validate url_Parse text isContent) ;; Merge other)).
  intros text. apply appends_merge_call, Text_validate_eq.
Qed.

Lemma appends_TimeStr_optional (t : TimeStr) :
  appends
    (if negb (t =? "") then
       other <- call (TimeStr_validate time_Parse t) ;; Merge other
     else ret tt)
    (optional_issues time_Parse t).
Proof.
  unfold optional_issues. destruct (t =? ""); simpl.
  - apply appends_ret.
  - apply appends_merge_call, TimeStr_validate_eq.
Qed.

Lemma performs_Links links foundAlternate :
  performs
    (for_range_local (link_loop_body url_Parse) links foundAlternate)
    (Returns (foundAlternate || existsb is_alternate links,
              Links_issues' links foundAlternate)).
Proof.
  revert foundAlternate.
  induction links as [|link links IH]; intros found; simpl.
  - rewrite orb_false_r. apply performs_ret.
  - intros [l0]. unfold bind at 1. unfold link_loop_body at 1.
    unfold bind at 1.
    rewrite (@appends_merge_call _ _ (Link_validate_eq link)). simpl.
    unfold is_alternate at 1 3 4.
    destruct (Link_Rel link =? "alternate"), found; simpl;
      unfold bind, Add, ret; simpl; rewrite IH; simpl;
      rewrite <- ?app_assoc; simpl; rewrite ?orb_true_r; reflexivity.
Qed.

Lemma run_from_finish (body : M unit) o l0 :
  performs body o ->
  run_from l0 (body ;; NilIfEmpty)
  = finish (effect_bind (Returns (tt, l0)) (fun _ => o)).
Proof.
  intros H. rewrite (run_from_bind_effect _ _ H).
  destruct o as [[[] l]|p]; simpl; [apply run_from_NilIfEmpty | reflexivity].
Qed.

Lemma appends_Generator_option (o : option Generator) :
  appends
    (match o with
     | Some generator =>
         other <- call (Generator_validate url_Parse generator) ;;
         Merge other
     | None => ret tt
     end)
    (option_issues Generator_issues' o).
Proof.
  apply (appends_option (fun generator =>
    other <- call (Generator_validate url_Parse generator) ;; Merge other)).
  intros generator. apply appends_merge_call, Generator_validate_eq.
Qed.

Lemma appends_Updated_or_issue (t : TimeStr) issue :
  appends
    (if negb (t =? "") then
       other <- call (TimeStr_validate time_Parse t) ;; Merge other
     else Add issue)
    (if t =? "" then [issue] else TimeStr_issues' t).
Proof.
  destruct (t =? ""); simpl.
  - apply appends_Add.
  - apply appends_merge_call, TimeStr_validate_eq.
Qed.

Lemma Feed_Validate_eq feed :
  Feed_Validate' feed
  = match merged_all Entry_Validate' (Feed_Entry feed) with
    | Returns (_, l) =>
        Returns (error_of (Feed_own_issues url_Parse mail_ParseAddress
                             time_Parse feed ++ l))
    | Panics p => Panics p
    end.
Proof.
  destruct feed as [xn common author category contributor generator icon id
                    link logo rights subtitle title updated entry extension].
  cbv beta iota delta [Feed_Validate].
  fold Entry_Validate'.
  set (feed := mkFeed xn common author category contributor generator icon id
                 link logo rights subtitle title updated entry extension).
  start_validator.
  step (appends_Common (Feed_Common feed)).
  step (appends_Persons (Feed_Author feed)).
  step (appends_author_rule feed).
  step (appends_Categories (Feed_Category feed)).
  step (appends_Persons (Feed_Contributor feed)).
  step (appends_Generator_option (Feed_Generator feed)).
  step (appends_optional url_Parse (Feed_Icon feed)).
  step (appends_required (Feed_ID feed) "Feed.ID can't be empty.").
  step (performs_Links (Feed_Link feed) false).
  step (appends_optional url_Parse (Feed_Logo feed)).
  step (appends_required (Feed_Title feed) "Feed.Title can't be empty.").
  step (appends_required (Feed_Updated feed) "Feed.Updated can't be empty.").
  step (appends_Updated_or_issue (Feed_Updated feed)
          "Feed.Updated can't be empty.").
  rewrite (run_from_finish _ (performs_for_range_merge _ _)).
  unfold effect_bind, finish.
  destruct (merged_all Entry_Validate' (Feed_Entry feed)) as [[[] l]|p];
    [|reflexivity].
  do 2 f_equal.
  unfold Feed_own_issues, Feed_issues_before_Updated, Feed_issues_to_Author,
    Feed_issues_to_ID, Feed_issues_Logo_Title, Feed_Updated_issues, required.
  destruct (Feed_Updated feed =? ""); simpl; rewrite <- ?app_assoc;
    reflexivity.
Qed.

Lemma Entry_Validate_eq entry :
  Entry_Validate' entry
  = match Entry_Source entry with
    | None =>
        Returns (error_of (Entry_issues_to_Published url_Parse
                             mail_ParseAddress time_Parse entry
                           ++ Entry_issues_from_Summary url_Parse
                                time_Parse entry))
    | Some source =>
        match Source_Feed source with
        | None => Panics NilDereference
        | Some feed =>
            match merged (Feed_Validate' feed) with
            | Returns (_, nested) =>
                Returns (error_of (Entry_issues_to_Published url_Parse
                                     mail_ParseAddress time_Parse entry
                                   ++ Source_entries_issues feed
                                   ++ Entry_issues_from_Summary url_Parse
                                        time_Parse entry
                                   ++ nested))
            | Panics p => Panics p
            end
        end
    end.
Proof.
  destruct entry as [xn common author category content contributor id link
                     published rights source summary title updated extension].
  cbv beta iota delta [Entry_Validate].
  fold Feed_Validate'.
  set (entry := mkEntry xn common author category content contributor id link
                  published rights source summary title updated extension).
  change source with (Entry_Source entry).
  start_validator.
  step (appends_Common (Entry_Common entry)).
  step (appends_Persons (Entry_Author entry)).
  step (appends_Categories (Entry_Category entry)).
  step (appends_Text_option true (Entry_Content entry)).
  step (appends_Persons (Entry_Contributor entry)).
  step (appends_required (Entry_ID entry) "Entry.ID can't be empty.").
  step (performs_Links (Entry_Link entry) false).
  step (appends_TimeStr_optional (Entry_Published entry)).
  destruct (Entry_Source entry) as [[[feed|]]|]; cbn [Source_Feed].
  - step (appends_required_bool (0 <? length (Feed_Entry feed))%nat
            "Entry.Source can't contain any entries.").
    step (appends_Text_option false (Entry_Summary entry)).
    step (appends_required (Entry_Title entry) "Entry.Title can't be empty.").
    step (appends_Updated_or_issue (Entry_Updated entry)
            "Entry.Updated can't be empty.").
    rewrite (run_from_finish _ (performs_merge_call _)).
    unfold effect_bind, finish.
    destruct (merged (Feed_Validate' feed)) as [[[] nested]|p];
      [|reflexivity].
    do 2 f_equal.
    unfold Entry_issues_to_Published, Entry_issues_from_Summary,
      Entry_Updated_issues, Source_entries_issues.
    simpl. rewrite <- ?app_assoc. reflexivity.
  - rewrite (run_from_bind_effect _ _ (performs_raise _ NilDereference)).
    reflexivity.
  - step appends_ret.
    step (appends_Text_option false (Entry_Summary entry)).
    step (appends_required (Entry_Title entry) "Entry.Title can't be empty.").
    step (appends_Updated_or_issue (Entry_Updated entry)
            "Entry.Updated can't be empty.").
    rewrite (run_from_finish _ appends_ret).
    unfold effect_bind, finish.
    do 2 f_equal.
    unfold Entry_issues_to_Published, Entry_issues_from_Summary,
      Entry_Updated_issues.
    simpl. rewrite <- ?app_assoc, ?app_nil_r. reflexivity.
Qed.

Lemma Feed_sound_eq feed :
  Feed_sound feed = forallb Entry_sound (Feed_Entry feed).
Proof. now destruct feed. Qed.

Lemma Entry_sound_eq entry :
  Entry_sound entry
  = match Entry_source_feed entry with
    | Some feed => Feed_sound feed
    | None =>
        match Entry_Source entry with Some _ => false | None => true end
    end.
Proof.
  destruct entry as [xn common author category content contributor id link
                     published rights [[[feed|]]|] summary title updated
                     extension]; reflexivity.
Qed.

Lemma merged_all_outcome entries :
  Forall Entry_outcome' entries ->
  merged_all Entry_Validate' entries
  = if forallb Entry_sound entries
    then Returns (tt, Entries_issues url_Parse mail_ParseAddress time_Parse
                        entries)
    else Panics NilDereference.
Proof.
  induction 1 as [|entry entries Hentry _ IH];
    cbn [merged_all forallb Entries_issues flat_map]; [reflexivity|].
  rewrite IH. red in Hentry. rewrite Hentry.
  destruct (Entry_sound entry); cbn [andb]; [|reflexivity].
  rewrite merged_error_of. cbn [reported]. rewrite issues_of_error_of.
  now destruct (forallb Entry_sound entries).
Qed.

Lemma Feed_outcome_step feed :
  Forall Entry_outcome' (Feed_Entry feed) -> Feed_outcome' feed.
Proof.
  intros H. red. rewrite Feed_Validate_eq, (merged_all_outcome H).
  rewrite Feed_sound_eq.
  now destruct (forallb Entry_sound (Feed_Entry feed)).
Qed.

Lemma Entry_outcome_step entry :
  match Entry_source_feed entry with
  | Some feed => Feed_outcome' feed
  | None => True
  end -> Entry_outcome' entry.
Proof.
  intros H. red. rewrite Entry_Validate_eq, Entry_sound_eq.
  unfold Entry_all_issues, Entry_Source_issues, Entry_nested_issues.
  unfold Entry_source_feed in *.
  destruct (Entry_Source entry) as [[[feed|]]|]; simpl in *.
  - red in H. rewrite H.
    destruct (Feed_sound feed); [|reflexivity].
    rewrite merged_error_of. cbn [reported].
    now rewrite issues_of_error_of.
  - reflexivity.
  - now rewrite app_nil_r.
Qed.

Lemma Feed_Validate_outcome feed : Feed_outcome' feed.
Proof.
  exact (@Feed_mutind Feed_outcome' Entry_outcome'
           Feed_outcome_step Entry_outcome_step feed).
Qed.

Lemma Entry_Validate_outcome entry : Entry_outcome' entry.
Proof.
  exact (@Entry_mutind Feed_outcome' Entry_outcome'
           Feed_outcome_step Entry_outcome_step entry).
Qed.

Lemma Feed_Validate_sound feed :
  Feed_sound feed = true ->
  Feed_Validate' feed
  = Returns (error_of (Feed_all_issues url_Parse mail_ParseAddress
                         time_Parse feed)).
Proof. intros H. rewrite Feed_Validate_outcome. now rewrite H. Qed.

Lemma Entry_Validate_sound entry :
  Entry_sound entry = true ->
  Entry_Validate' entry
  = Returns (error_of (Entry_all_issues url_Parse mail_ParseAddress
                         time_Parse entry)).
Proof. intros H. rewrite Entry_Validate_outcome. now rewrite H. Qed.

Lemma Feed_reported feed :
  Feed_sound feed = true ->
  reported (Feed_Validate' feed)
  = Feed_all_issues url_Parse mail_ParseAddress time_Parse feed.
Proof.
  intros H. rewrite (Feed_Validate_sound _ H). apply issues_of_error_of.
Qed.

Lemma Entry_reported entry :
  Entry_sound entry = true ->
  reported (Entry_Validate' entry)
  = Entry_all_issues url_Parse mail_ParseAddress time_Parse entry.
Proof.
  intros H. rewrite (Entry_Validate_sound _ H). apply issues_of_error_of.
Qed.

End ClosedForms.

(* ================================================================= *)
(** ** The aggregator: [NilIfEmpty], [Error] and [Merge] *)

Lemma string_append_assoc (a b c : string) :
  ((a ++ b) ++ c)%string = (a ++ (b ++ c))%string.
Proof. induction a as [|ch a IH]; simpl; [reflexivity | now rewrite IH]. Qed.

Lemma string_append_empty (a : string) : (a ++ "")%string = a.
Proof. induction a as [|ch a IH]; simpl; [reflexivity | now rewrite IH]. Qed.

Lemma Error_loop (l : list string) (result : string) :
  fold_left (fun result issue => (result ++ ("- " ++ issue ++ LF))%string)
            l result
  = (result ++ issue_lines l)%string.
Proof.
  revert result. induction l as [|issue l IH]; intros result; simpl.
  - now rewrite string_append_empty.
  - rewrite IH. unfold issue_lines. simpl.
    now rewrite string_append_assoc.
Qed.

(** C8. [NilIfEmpty] leaves the aggregator as it is and answers [nil]
    exactly when no issue was collected, and the aggregator itself
    otherwise; [Error] renders the header line followed by one line
    [- issue] per issue, in the order of collection. *)
Theorem C8_NilIfEmpty_Error (err : ValidationError) :
  (exists r : error,
      NilIfEmpty err = Returns (r, err)
      /\ (r = None <-> issues err = [])
      /\ r = match issues err with
             | [] => None
             | _ :: _ => Some (EValidation err)
             end)
  /\ ValidationError_Error err
     = ("An ATOM validation error occured:" ++ LF
        ++ issue_lines (issues err))%string
  /\ (forall issue l,
         issue_lines (issue :: l)
         = ("- " ++ issue ++ LF ++ issue_lines l)%string)
  /\ issue_lines [] = "".
Proof.
  split; [|split; [|split]].
  - destruct err as [[|issue l]]; unfold NilIfEmpty; simpl.
    + exists None. repeat split; reflexivity.
    + eexists. split; [reflexivity|]. split; [|reflexivity].
      split; discriminate.
  - unfold ValidationError_Error. rewrite Error_loop.
    now rewrite string_append_assoc.
  - intros issue l. unfold issue_lines, issue_line. simpl.
    now rewrite !string_append_assoc.
  - reflexivity.
Qed.

Section Safety.
Variable url_Parse : string -> option string.
Variable mail_ParseAddress : string -> option string.
Variable time_Parse : string -> option string.

Lemma assertion_safe_error_of l : assertion_safe (Returns (error_of l)).
Proof. now destruct l. Qed.

Lemma Feed_Validate_assertion_safe feed :
  assertion_safe (Feed_Validate url_Parse mail_ParseAddress time_Parse feed).
Proof.
  rewrite Feed_Validate_outcome.
  destruct (Feed_sound feed); [apply assertion_safe_error_of | reflexivity].
Qed.

Lemma Entry_Validate_assertion_safe entry :
  assertion_safe (Entry_Validate url_Parse mail_ParseAddress time_Parse entry).
Proof.
  rewrite Entry_Validate_outcome.
  destruct (Entry_sound entry); [apply assertion_safe_error_of | reflexivity].
Qed.

(** [Entry.Validate] and [Feed.Validate] return exactly on the documents
    without a nil source feed. *)
Lemma Entry_Validate_returns_iff entry :
  (exists r, Entry_Validate url_Parse mail_ParseAddress time_Parse entry
             = Returns r)
  <-> Entry_sound entry = true.
Proof.
  rewrite Entry_Validate_outcome.
  destruct (Entry_sound entry); split; intros H; try reflexivity.
  - eexists. reflexivity.
  - destruct H as [r H]. discriminate.
  - discriminate.
Qed.

Lemma Feed_Validate_returns_iff feed :
  (exists r, Feed_Validate url_Parse mail_ParseAddress time_Parse feed
             = Returns r)
  <-> Feed_sound feed = true.
Proof.
  rewrite Feed_Validate_outcome.
  destruct (Feed_sound feed); split; intros H; try reflexivity.
  - eexists. reflexivity.
  - destruct H as [r H]. discriminate.
  - discriminate.
Qed.

End Safety.

(** C10. [Merge] panics on a non-nil error that is not a
    [*ValidationError], leaves the issues as they are on [nil], and
    appends the issues of a [*ValidationError]; every validator of the
    package returns [nil] or a [*ValidationError], and neither
    [Entry.Validate] nor [Feed.Validate] stops on a failed assertion. *)
Theorem C10_Merge_assertion_unreachable :
  (forall msg errs, Merge (Some (EForeign msg)) errs = Panics TypeAssertion)
  /\ (forall errs, Merge None errs = Returns (tt, errs))
  /\ (forall o errs,
         Merge (Some (EValidation o)) errs
         = Returns (tt, mkValidationError (issues errs ++ issues o)))
  /\ forall url_Parse mail_ParseAddress time_Parse,
       (forall common, assertion_safe (validateCommon url_Parse common))
       /\ (forall text isContent,
              assertion_safe (Text_validate url_Parse text isContent))
       /\ (forall person,
              assertion_safe
                (Person_validate url_Parse mail_ParseAddress person))
       /\ (forall timeStr,
              assertion_safe (TimeStr_validate time_Parse timeStr))
       /\ (forall category,
              assertion_safe (Category_validate url_Parse category))
       /\ (forall generator,
              assertion_safe (Generator_validate url_Parse generator))
       /\ (forall link, assertion_safe (Link_validate url_Parse link))
       /\ (forall entry,
              assertion_safe
                (Entry_Validate url_Parse mail_ParseAddress time_Parse entry))
       /\ (forall feed,
              assertion_safe
                (Feed_Validate url_Parse mail_ParseAddress time_Parse feed)).
Proof.
  repeat split; try reflexivity; intros.
  - rewrite validateCommon_eq. apply assertion_safe_error_of.
  - rewrite Text_validate_eq. apply assertion_safe_error_of.
  - rewrite Person_validate_eq. apply assertion_safe_error_of.
  - rewrite TimeStr_validate_eq. apply assertion_safe_error_of.
  - rewrite Category_validate_eq. apply assertion_safe_error_of.
  - rewrite Generator_validate_eq. apply assertion_safe_error_of.
  - rewrite Link_validate_eq. apply assertion_safe_error_of.
  - apply Entry_Validate_assertion_safe.
  - apply Feed_Validate_assertion_safe.
Qed.

(** C9. An entry whose source is set while the feed of the source is
    nil makes [Entry.Validate] panic on the nil pointer, so that it
    returns no report. *)
Theorem C9_nil_source_feed_panics
    (url_Parse mail_ParseAddress time_Parse : string -> option string)
    (entry : Entry) (source : Source) :
  Entry_Source entry = Some source ->
  Source_Feed source = None ->
  Entry_Validate url_Parse mail_ParseAddress time_Parse entry
  = Panics NilDereference
  /\ forall r,
       Entry_Validate url_Parse mail_ParseAddress time_Parse entry
       <> Returns r.
Proof.
  intros Hsource Hfeed.
  assert (H : Entry_Validate url_Parse mail_ParseAddress time_Parse entry
              = Panics NilDereference).
  { rewrite Entry_Validate_eq, Hsource, Hfeed. reflexivity. }
  split; [exact H|]. intros r. rewrite H. discriminate.
Qed.

Lemma C9_witness :
  Entry_Validate accept_all accept_all accept_all entry_nil_source_feed
  = Panics NilDereference
  /\ forall r,
       Entry_Validate accept_all accept_all accept_all entry_nil_source_feed
       <> Returns r.
Proof.
  apply (@C9_nil_source_feed_panics accept_all accept_all accept_all
           entry_nil_source_feed (mkSource None)); reflexivity.
Defined.

(** C7. [Category.validate] never looks at [Term]: a category whose term
    is empty, and whose other fields are empty too, validates without
    any issue, and the term of a category has no influence on the
    result. *)
Theorem C7_Category_Term_unchecked :
  forall url_Parse : string -> option string,
    Category_validate url_Parse empty_category = Returns None
    /\ forall common term term' scheme label,
         Category_validate url_Parse (mkCategory common term scheme label)
         = Category_validate url_Parse (mkCategory common term' scheme label).
Proof.
  intros url_Parse. split; [reflexivity|].
  intros. now rewrite !Category_validate_eq.
Qed.

(* ================================================================= *)
(** ** Occurrences of an issue in the parts of a report *)

Lemma occurrences_app issue l1 l2 :
  occurrences issue (l1 ++ l2) = occurrences issue l1 + occurrences issue l2.
Proof. unfold occurrences. now rewrite filter_app, length_app. Qed.

Lemma occurrences_flat_map A issue (f : A -> list string) l :
  occurrences issue (flat_map f l)
  = list_sum (map (fun x => occurrences issue (f x)) l).
Proof.
  induction l as [|x l IH]; simpl; [reflexivity|].
  now rewrite occurrences_app, IH.
Qed.

Lemma occurrences_flat_map_zero A issue (f : A -> list string) l :
  (forall x, occurrences issue (f x) = 0) ->
  occurrences issue (flat_map f l) = 0.
Proof.
  intros H. induction l as [|x l IH]; simpl; [reflexivity|].
  now rewrite occurrences_app, H, IH.
Qed.

Lemma occurrences_In issue l : In issue l <-> 0 < occurrences issue l.
Proof.
  unfold occurrences. induction l as [|x l IH]; simpl.
  - split; [tauto | lia].
  - destruct (String.eqb_spec issue x) as [->|Hne]; simpl.
    + split; [lia | auto].
    + rewrite <- IH. split; [intros [H|H]; congruence | auto].
Qed.

Lemma occurrences_zero issue l : ~ In issue l <-> occurrences issue l = 0.
Proof. rewrite occurrences_In. lia. Qed.

Lemma occurrences_required_other issue field issue' :
  (issue =? issue') = false -> occurrences issue (required field issue') = 0.
Proof.
  intros H. unfold required, occurrences.
  destruct (field =? ""); simpl; [now rewrite H | reflexivity].
Qed.

Lemma occurrences_parse issue parse s :
  never_says parse issue -> occurrences issue (parse_issues parse s) = 0.
Proof.
  intros H. unfold parse_issues, occurrences.
  destruct (parse s) as [msg|] eqn:E; simpl; [|reflexivity].
  destruct (String.eqb_spec issue msg) as [->|_]; [|reflexivity].
  now apply H in E.
Qed.

Lemma occurrences_optional issue parse s :
  never_says parse issue -> occurrences issue (optional_issues parse s) = 0.
Proof.
  intros H. unfold optional_issues.
  destruct (s =? ""); [reflexivity | now apply occurrences_parse].
Qed.

Section ForeignIssues.
Variable url_Parse : string -> option string.
Variable issue : string.
Hypothesis url_never : never_says url_Parse issue.

Lemma occurrences_Common common :
  occurrences issue (Common_issues url_Parse common) = 0.
Proof. now apply occurrences_optional. Qed.

Lemma occurrences_Person mail_ParseAddress person :
  never_says mail_ParseAddress issue ->
  occurrences issue (Person_issues url_Parse mail_ParseAddress person) = 0.
Proof.
  intros mail_never. unfold Person_issues.
  now rewrite !occurrences_app, occurrences_Common, !occurrences_optional.
Qed.

Lemma occurrences_Persons mail_ParseAddress persons :
  never_says mail_ParseAddress issue ->
  occurrences issue
    (flat_map (Person_issues url_Parse mail_ParseAddress) persons) = 0.
Proof.
  intros mail_never. apply occurrences_flat_map_zero. intros person.
  now apply occurrences_Person.
Qed.

Lemma occurrences_Categories categories :
  occurrences issue (flat_map (Category_issues url_Parse) categories) = 0.
Proof.
  apply occurrences_flat_map_zero. intros category. unfold Category_issues.
  now rewrite occurrences_app, occurrences_Common, occurrences_optional.
Qed.

Lemma occurrences_Generator (o : option Generator) :
  occurrences issue (option_issues (Generator_issues url_Parse) o) = 0.
Proof.
  destruct o as [generator|]; [|reflexivity]. simpl. unfold Generator_issues.
  now rewrite occurrences_app, occurrences_Common, occurrences_optional.
Qed.

Lemma occurrences_Link link :
  occurrences issue (Link_issues url_Parse link) = 0.
Proof.
  unfold Link_issues.
  now rewrite occurrences_app, occurrences_Common, occurrences_parse.
Qed.

Lemma occurrences_Text (o : option Text) isContent :
  occurrences issue
    (option_issues (fun text => Text_issues url_Parse text isContent) o)
  = occurrences issue
      (option_issues (fun text => Text_Type_issues text isContent) o).
Proof.
  destruct o as [text|]; [|reflexivity]. simpl. unfold Text_issues.
  rewrite !occurrences_app, occurrences_Common, occurrences_optional; auto.
Qed.

Lemma occurrences_Links links foundAlternate :
  occurrences issue (Links_issues url_Parse links foundAlternate)
  = if issue =? alternate_issue
    then extra_alternates links foundAlternate else 0.
Proof.
  revert foundAlternate.
  induction links as [|link links IH]; intros found; simpl.
  - destruct (issue =? alternate_issue), found; reflexivity.
  - rewrite !occurrences_app, occurrences_Link, IH.
    unfold extra_alternates, count_alternate. simpl.
    destruct (is_alternate link), found; simpl;
      destruct (issue =? alternate_issue) eqn:E; simpl;
      unfold occurrences; simpl; rewrite ?E; simpl; lia.
Qed.

End ForeignIssues.

Section OwnIssues.
Variable url_Parse : string -> option string.
Variable mail_ParseAddress : string -> option string.
Variable time_Parse : string -> option string.
Variable issue : string.
Hypothesis url_never : never_says url_Parse issue.
Hypothesis mail_never : never_says mail_ParseAddress issue.

Lemma occurrences_Feed_before_Updated feed :
  occurrences issue
    (Feed_issues_before_Updated url_Parse mail_ParseAddress feed)
  = occurrences issue (Author_rule_issues feed)
    + occurrences issue (required (Feed_ID feed) "Feed.ID can't be empty.")
    + (if issue =? alternate_issue
       then extra_alternates (Feed_Link feed) false else 0)
    + occurrences issue
        (required (Feed_Title feed) "Feed.Title can't be empty.").
Proof.
  unfold Feed_issues_before_Updated, Feed_issues_to_Author,
    Feed_issues_to_ID, Feed_issues_Logo_Title.
  rewrite !occurrences_app.
  rewrite (@occurrences_Common _ _ url_never).
  rewrite !(fun l => @occurrences_Persons _ _ url_never _ l mail_never).
  rewrite (@occurrences_Categories _ _ url_never).
  rewrite (@occurrences_Generator _ _ url_never).
  rewrite !(fun s => @occurrences_optional issue url_Parse s url_never).
  rewrite (@occurrences_Links _ _ url_never).
  lia.
Qed.

Hypothesis time_never : never_says time_Parse issue.

Lemma occurrences_Feed_own feed :
  occurrences issue
    (Feed_own_issues url_Parse mail_ParseAddress time_Parse feed)
  = occurrences issue (Author_rule_issues feed)
    + occurrences issue (required (Feed_ID feed) "Feed.ID can't be empty.")
    + (if issue =? alternate_issue
       then extra_alternates (Feed_Link feed) false else 0)
    + occurrences issue
        (required (Feed_Title feed) "Feed.Title can't be empty.")
    + occurrences issue
        (if Feed_Updated feed =? ""
         then ["Feed.Updated can't be empty.";
               "Feed.Updated can't be empty."]
         else []).
Proof.
  unfold Feed_own_issues, Feed_Updated_issues, TimeStr_issues.
  rewrite occurrences_app, occurrences_Feed_before_Updated.
  destruct (Feed_Updated feed =? "");
    [|rewrite (@occurrences_parse issue time_Parse _ time_never);
      change (occurrences issue []) with 0]; lia.
Qed.

Lemma occurrences_Entry_all entry :
  occurrences issue
    (Entry_all_issues url_Parse mail_ParseAddress time_Parse entry)
  = occurrences issue (required (Entry_ID entry) "Entry.ID can't be empty.")
    + (if issue =? alternate_issue
       then extra_alternates (Entry_Link entry) false else 0)
    + occurrences issue (Entry_Source_issues entry)
    + occurrences issue
        (option_issues (fun text => Text_Type_issues text false)
                       (Entry_Summary entry))
    + occurrences issue
        (required (Entry_Title entry) "Entry.Title can't be empty.")
    + occurrences issue
        (if Entry_Updated entry =? ""
         then ["Entry.Updated can't be empty."] else [])
    + occurrences issue
        (Entry_nested_issues url_Parse mail_ParseAddress time_Parse entry).
Proof.
  unfold Entry_all_issues, Entry_issues_to_Published,
    Entry_issues_from_Summary, Entry_Updated_issues, TimeStr_issues.
  rewrite !occurrences_app.
  rewrite (@occurrences_Common _ _ url_never).
  rewrite !(fun l => @occurrences_Persons _ _ url_never _ l mail_never).
  rewrite (@occurrences_Categories _ _ url_never).
  rewrite !(@occurrences_Text _ _ url_never).
  rewrite (fun s => @occurrences_optional issue time_Parse s time_never).
  rewrite (@occurrences_Links _ _ url_never).
  assert (Hcontent : occurrences issue
            (option_issues (fun text => Text_Type_issues text true)
                           (Entry_Content entry)) = 0).
  { now destruct (Entry_Content entry). }
  rewrite Hcontent.
  destruct (Entry_Updated entry =? "");
    [|rewrite (@occurrences_parse issue time_Parse _ time_never);
      change (occurrences issue []) with 0]; lia.
Qed.

End OwnIssues.

Lemma occurrences_Author_rule_other issue feed :
  (issue =? "Author must be present in Feed or in every Entry.") = false ->
  occurrences issue (Author_rule_issues feed) = 0.
Proof.
  intros H. unfold Author_rule_issues, occurrences.
  destruct (_ && _); simpl; [now rewrite H | reflexivity].
Qed.

Lemma occurrences_Source_entries_other issue entry :
  (issue =? "Entry.Source can't contain any entries.") = false ->
  occurrences issue (Entry_Source_issues entry) = 0.
Proof.
  intros H. unfold Entry_Source_issues, Source_entries_issues, occurrences.
  destruct (Entry_source_feed entry) as [feed|]; simpl; [|reflexivity].
  destruct (0 <? _)%nat; simpl; [now rewrite H | reflexivity].
Qed.

Lemma occurrences_Text_Type_other issue (o : option Text) isContent :
  (issue =? "Text.Type must be either: text, html or xhtml.") = false ->
  occurrences issue
    (option_issues (fun text => Text_Type_issues text isContent) o) = 0.
Proof.
  intros H. destruct o as [text|]; [|reflexivity].
  unfold option_issues, Text_Type_issues, occurrences.
  destruct isContent, (Text_Type text =? ""), (Text_Type_enumerated text);
    simpl; rewrite ?H; reflexivity.
Qed.

Lemma occurrences_if_other issue (b : bool) l :
  forallb (fun issue' => negb (issue =? issue')) l = true ->
  occurrences issue (if b then l else []) = 0.
Proof.
  intros H. destruct b; [|reflexivity].
  unfold occurrences. induction l as [|x l IH]; [reflexivity|].
  simpl in *. apply andb_true_iff in H as [Hx Hl].
  apply negb_true_iff in Hx. rewrite Hx. auto.
Qed.

Lemma Feed_sound_entries feed entry :
  Feed_sound feed = true -> In entry (Feed_Entry feed) ->
  Entry_sound entry = true.
Proof.
  rewrite Feed_sound_eq, forallb_forall. auto.
Qed.

Lemma list_sum_map_ext A (f g : A -> nat) l :
  (forall x, In x l -> f x = g x) ->
  list_sum (map f l) = list_sum (map g l).
Proof.
  induction l as [|x l IH]; simpl; intros H; [reflexivity|].
  rewrite H, IH; auto.
Qed.

(* ================================================================= *)
(** ** The rule on alternate links *)

(** C1, as amended.  When no syntax checker answers the issue about
    alternate links, the report of a feed without nil source feeds
    holds that issue once per alternate link of the feed beyond the
    first, plus the occurrences merged from its entries; an entry adds
    it once per alternate link of its own beyond the first, plus the
    occurrences merged from its source feed. *)
Theorem C1_alternate_issue_per_extra_link
    (url_Parse mail_ParseAddress time_Parse : string -> option string)
    (feed : Feed) :
  never_says url_Parse alternate_issue ->
  never_says mail_ParseAddress alternate_issue ->
  never_says time_Parse alternate_issue ->
  Feed_sound feed = true ->
  (exists r,
      Feed_Validate url_Parse mail_ParseAddress time_Parse feed = Returns r
      /\ occurrences alternate_issue (issues_of r)
         = (count_alternate (Feed_Link feed) - 1)
           + list_sum
               (map (fun entry =>
                       occurrences alternate_issue
                         (reported (Entry_Validate url_Parse mail_ParseAddress
                                      time_Parse entry)))
                    (Feed_Entry feed)))
  /\ forall entry,
       In entry (Feed_Entry feed) ->
       occurrences alternate_issue
         (reported (Entry_Validate url_Parse mail_ParseAddress
                      time_Parse entry))
       = (count_alternate (Entry_Link entry) - 1)
         + occurrences alternate_issue
             (Entry_nested_issues url_Parse mail_ParseAddress
                time_Parse entry).
Proof.
  intros Hurl Hmail Htime Hsound. split.
  - eexists. split; [apply Feed_Validate_sound, Hsound|].
    rewrite issues_of_error_of. unfold Feed_all_issues, Entries_issues.
    rewrite occurrences_app, occurrences_flat_map.
    rewrite (occurrences_Feed_own Hurl Hmail Htime).
    rewrite occurrences_Author_rule_other by reflexivity.
    rewrite !occurrences_required_other by reflexivity.
    rewrite occurrences_if_other by reflexivity.
    rewrite String.eqb_refl. unfold extra_alternates. lia.
  - intros entry Hin.
    rewrite Entry_reported by exact (Feed_sound_entries feed entry Hsound Hin).
    rewrite (occurrences_Entry_all Hurl Hmail Htime).
    rewrite !occurrences_required_other by reflexivity.
    rewrite occurrences_Source_entries_other by reflexivity.
    rewrite occurrences_Text_Type_other by reflexivity.
    rewrite occurrences_if_other by reflexivity.
    rewrite String.eqb_refl. unfold extra_alternates. lia.
Qed.

Lemma accept_all_never issue : never_says accept_all issue.
Proof. intros s. discriminate. Qed.

Lemma C1_witness :
  (exists r,
      Feed_Validate accept_all accept_all accept_all feed_three_alternates
      = Returns r
      /\ occurrences alternate_issue (issues_of r)
         = (count_alternate (Feed_Link feed_three_alternates) - 1)
           + list_sum
               (map (fun entry =>
                       occurrences alternate_issue
                         (reported (Entry_Validate accept_all accept_all
                                      accept_all entry)))
                    (Feed_Entry feed_three_alternates)))
  /\ forall entry,
       In entry (Feed_Entry feed_three_alternates) ->
       occurrences alternate_issue
         (reported (Entry_Validate accept_all accept_all accept_all entry))
       = (count_alternate (Entry_Link entry) - 1)
         + occurrences alternate_issue
             (Entry_nested_issues accept_all accept_all accept_all entry).
Proof.
  apply (@C1_alternate_issue_per_extra_link accept_all accept_all accept_all
           feed_three_alternates).
  - intros s. discriminate.
  - intros s. discriminate.
  - intros s. discriminate.
  - reflexivity.
Defined.

(** A feed with three alternate links reports the issue twice. *)
Lemma C1_counterexample :
  count_alternate (Feed_Link feed_three_alternates) = 3
  /\ occurrences alternate_issue
       (reported (Feed_Validate accept_all accept_all accept_all
                    feed_three_alternates)) = 2
  /\ occurrences alternate_issue
       (reported (Feed_Validate accept_all accept_all accept_all
                    feed_three_alternates)) <> 1.
Proof.
  split; [reflexivity | split; [reflexivity | vm_compute; discriminate]].
Qed.

(* ================================================================= *)
(** ** The tests of [Feed.Updated] *)



(* ================================================================= *)
(** ** The rule on authors *)

(** C3, as amended.  When no syntax checker answers the issue about
    authors, the report of a feed without nil source feeds holds that
    issue once if the feed has no author and some entry has none, not
    at all from the feed's own rule otherwise, plus the occurrences
    merged from the source feeds of its entries; hence exactly once,
    respectively never, when no entry has a source. *)
Theorem C3_author_issue_once
    (url_Parse mail_ParseAddress time_Parse : string -> option string)
    (feed : Feed) :
  never_says url_Parse "Author must be present in Feed or in every Entry." ->
  never_says mail_ParseAddress
             "Author must be present in Feed or in every Entry." ->
  never_says time_Parse "Author must be present in Feed or in every Entry." ->
  Feed_sound feed = true ->
  exists r,
    Feed_Validate url_Parse mail_ParseAddress time_Parse feed = Returns r
    /\ occurrences "Author must be present in Feed or in every Entry."
         (issues_of r)
       = (if (length (Feed_Author feed) =? 0)%nat
             && existsb lacks_author (Feed_Entry feed)
          then 1 else 0)
         + list_sum
             (map (fun entry =>
                     occurrences
                       "Author must be present in Feed or in every Entry."
                       (Entry_nested_issues url_Parse mail_ParseAddress
                          time_Parse entry))
                  (Feed_Entry feed))
    /\ (forallb (fun entry =>
                   match Entry_Source entry with
                   | Some _ => false
                   | None => true
                   end) (Feed_Entry feed) = true ->
        occurrences "Author must be present in Feed or in every Entry."
          (issues_of r)
        = if (length (Feed_Author feed) =? 0)%nat
             && existsb lacks_author (Feed_Entry feed)
          then 1 else 0).
Proof.
  intros Hurl Hmail Htime Hsound.
  set (issue := "Author must be present in Feed or in every Entry.") in *.
  assert (Hcount :
    occurrences issue
      (Feed_all_issues url_Parse mail_ParseAddress time_Parse feed)
    = (if (length (Feed_Author feed) =? 0)%nat
          && existsb lacks_author (Feed_Entry feed)
       then 1 else 0)
      + list_sum
          (map (fun entry =>
                  occurrences issue
                    (Entry_nested_issues url_Parse mail_ParseAddress
                       time_Parse entry))
               (Feed_Entry feed))).
  { unfold Feed_all_issues, Entries_issues.
    rewrite occurrences_app, occurrences_flat_map.
    rewrite (occurrences_Feed_own Hurl Hmail Htime).
    rewrite !occurrences_required_other by reflexivity.
    rewrite occurrences_if_other by reflexivity.
    change (issue =? alternate_issue) with false.
    rewrite (list_sum_map_ext
               (fun entry =>
                  occurrences issue
                    (reported (Entry_Validate url_Parse mail_ParseAddress
                                 time_Parse entry)))
               (fun entry =>
                  occurrences issue
                    (Entry_nested_issues url_Parse mail_ParseAddress
                       time_Parse entry))).
    - unfold Author_rule_issues. fold issue.
      destruct (_ && _); simpl; lia.
    - intros entry Hin.
      rewrite Entry_reported
        by exact (Feed_sound_entries feed entry Hsound Hin).
      rewrite (occurrences_Entry_all Hurl Hmail Htime).
      rewrite !occurrences_required_other by reflexivity.
      rewrite occurrences_Source_entries_other by reflexivity.
      rewrite occurrences_Text_Type_other by reflexivity.
      rewrite occurrences_if_other by reflexivity.
      change (issue =? alternate_issue) with false. cbv iota. lia. }
  eexists. split; [apply Feed_Validate_sound, Hsound|].
  rewrite issues_of_error_of. split; [exact Hcount|].
  intros Hnone. rewrite Hcount.
  assert (Hzero : list_sum
            (map (fun entry =>
                    occurrences issue
                      (Entry_nested_issues url_Parse mail_ParseAddress
                         time_Parse entry))
                 (Feed_Entry feed)) = 0).
  { clear Hcount Hsound. induction (Feed_Entry feed) as [|entry l IH];
      [reflexivity|].
    simpl in Hnone. apply andb_true_iff in Hnone as [He Hl].
    simpl. rewrite (IH Hl). unfold Entry_nested_issues, Entry_source_feed.
    now destruct (Entry_Source entry). }
  rewrite Hzero. lia.
Qed.

Lemma C3_witness :
  exists r,
    Feed_Validate accept_all accept_all accept_all
                  feed_two_entries_lack_author = Returns r
    /\ occurrences "Author must be present in Feed or in every Entry."
         (issues_of r) = 1.
Proof.
  destruct (@C3_author_issue_once accept_all accept_all accept_all
              feed_two_entries_lack_author
              (@accept_all_never _) (@accept_all_never _) (@accept_all_never _)
              eq_refl) as [r [Hr [_ Hcount]]].
  exists r. split; [exact Hr|]. exact (Hcount eq_refl).
Defined.

(** Every entry of the feed has an author, and the issue is reported all
    the same: it comes from the source feed of the entry. *)
Lemma C3_counterexample :
  length (Feed_Author feed_nested_author_issue) = 0
  /\ existsb lacks_author (Feed_Entry feed_nested_author_issue) = false
  /\ In "Author must be present in Feed or in every Entry."
        (reported (Feed_Validate accept_all accept_all accept_all
                     feed_nested_author_issue)).
Proof.
  split; [reflexivity | split; [reflexivity|]].
  apply occurrences_In. vm_compute. lia.
Qed.

(* ================================================================= *)
(** ** The source of an entry *)

(** C4, as amended.  For an entry whose source holds a feed without nil
    source feeds, the report is made of the issues found up to
    [Published], then the issue about the entries of the source feed if
    it has any, then the issues of the summary, the title and [Updated],
    and last the issues of the validation of the source feed; so a
    source feed without title surfaces its own title issue. *)
Theorem C4_source_feed_validated_last
    (url_Parse mail_ParseAddress time_Parse : string -> option string)
    (entry : Entry) (source : Source) (feed : Feed) :
  Entry_Source entry = Some source ->
  Source_Feed source = Some feed ->
  Feed_sound feed = true ->
  exists r,
    Entry_Validate url_Parse mail_ParseAddress time_Parse entry = Returns r
    /\ issues_of r
       = Entry_issues_to_Published url_Parse mail_ParseAddress time_Parse
           entry
         ++ (if (0 <? length (Feed_Entry feed))%nat
             then ["Entry.Source can't contain any entries."] else [])
         ++ (option_issues (fun summary => Text_issues url_Parse summary false)
                           (Entry_Summary entry)
             ++ required (Entry_Title entry) "Entry.Title can't be empty."
             ++ Entry_Updated_issues time_Parse entry)
         ++ reported (Feed_Validate url_Parse mail_ParseAddress time_Parse
                        feed)
    /\ (Feed_Title feed = "" ->
        In "Feed.Title can't be empty." (issues_of r)).
Proof.
  intros Hsource Hfeed Hsound.
  assert (Hentry : Entry_sound entry = true).
  { rewrite Entry_sound_eq. unfold Entry_source_feed.
    now rewrite Hsource, Hfeed. }
  eexists. split; [apply Entry_Validate_sound, Hentry|].
  rewrite issues_of_error_of.
  unfold Entry_all_issues, Entry_Source_issues, Entry_nested_issues,
    Entry_source_feed.
  rewrite Hsource, Hfeed. split; [reflexivity|].
  intros Htitle. rewrite Feed_reported by exact Hsound.
  unfold Feed_all_issues, Feed_own_issues, Feed_issues_before_Updated,
    Feed_issues_Logo_Title, required.
  rewrite Htitle. rewrite !in_app_iff. simpl. tauto.
Qed.

Lemma C4_witness :
  exists r,
    Entry_Validate accept_all accept_all accept_all entry_untitled_source
    = Returns r
    /\ issues_of r
       = ["Entry.Source can't contain any entries.";
          "Entry.Title can't be empty.";
          "Feed.Title can't be empty."].
Proof.
  destruct (@C4_source_feed_validated_last accept_all accept_all accept_all
              entry_untitled_source (mkSource (Some untitled_source_feed))
              untitled_source_feed eq_refl eq_refl eq_refl)
    as [r [Hr [Hissues _]]].
  exists r. split; [exact Hr|]. rewrite Hissues. reflexivity.
Defined.

(** The code merges the issues of the source feed after the title issue
    of the entry, not at the step that looks at the entries of the
    source. *)
Lemma C4_counterexample :
  reported (Entry_Validate accept_all accept_all accept_all
              entry_untitled_source)
  = ["Entry.Source can't contain any entries.";
     "Entry.Title can't be empty.";
     "Feed.Title can't be empty."]
  /\ Entry_issues_as_specified accept_all accept_all accept_all
       entry_untitled_source
     = ["Entry.Source can't contain any entries.";
        "Feed.Title can't be empty.";
        "Entry.Title can't be empty."]
  /\ reported (Entry_Validate accept_all accept_all accept_all
                 entry_untitled_source)
     <> Entry_issues_as_specified accept_all accept_all accept_all
          entry_untitled_source.
Proof.
  split; [reflexivity | split; [reflexivity|]].
  vm_compute. discriminate.
Qed.

(* ================================================================= *)
(** ** The type of a text *)

Lemma Text_Type_issues_invalid text :
  Text_Type text <> "" ->
  Text_Type text <> "text" ->
  Text_Type text <> "html" ->
  Text_Type text <> "xhtml" ->
  Text_Type_issues text false
  = ["Text.Type must be either: text, html or xhtml."].
Proof.
  intros H0 H1 H2 H3. unfold Text_Type_issues, Text_Type_enumerated.
  apply String.eqb_neq in H0, H1, H2, H3.
  now rewrite H0, H1, H2, H3.
Qed.

(** C5, as amended.  Let [text] have a type that is not empty and none
    of [text], [html], [xhtml].  [Text.validate] reports the issue about
    the type
    when it is not told that the text is a content and, provided
    [url.Parse] never answers that issue, not when it is.  For an entry
    without nil source feeds: if [text] is its summary the issue is in
    the report; and, when no syntax checker answers the issue, the
    occurrences of
    the issue in the report are those of the summary and of the
    validation of the source feed whatever the content is, so that an
    entry with [text] as content, no summary and no source does not
    report it. *)
Theorem C5_Text_Type_summary_not_content
    (url_Parse mail_ParseAddress time_Parse : string -> option string)
    (entry : Entry) (text : Text) :
  Text_Type text <> "" ->
  Text_Type text <> "text" ->
  Text_Type text <> "html" ->
  Text_Type text <> "xhtml" ->
  never_says url_Parse "Text.Type must be either: text, html or xhtml." ->
  never_says mail_ParseAddress
             "Text.Type must be either: text, html or xhtml." ->
  never_says time_Parse "Text.Type must be either: text, html or xhtml." ->
  Entry_sound entry = true ->
  In "Text.Type must be either: text, html or xhtml."
     (reported (Text_validate url_Parse text false))
  /\ ~ In "Text.Type must be either: text, html or xhtml."
          (reported (Text_validate url_Parse text true))
  /\ exists r,
       Entry_Validate url_Parse mail_ParseAddress time_Parse entry = Returns r
       /\ (Entry_Summary entry = Some text ->
           In "Text.Type must be either: text, html or xhtml." (issues_of r))
       /\ occurrences "Text.Type must be either: text, html or xhtml."
            (issues_of r)
          = occurrences "Text.Type must be either: text, html or xhtml."
              (option_issues (fun summary => Text_Type_issues summary false)
                             (Entry_Summary entry))
            + occurrences "Text.Type must be either: text, html or xhtml."
                (Entry_nested_issues url_Parse mail_ParseAddress time_Parse
                   entry)
       /\ (Entry_Content entry = Some text ->
           Entry_Summary entry = None ->
           Entry_Source entry = None ->
           ~ In "Text.Type must be either: text, html or xhtml."
                (issues_of r)).
Proof.
  intros H0 H1 H2 H3 Hurl Hmail Htime Hsound.
  set (issue := "Text.Type must be either: text, html or xhtml.") in *.
  pose proof (Text_Type_issues_invalid text H0 H1 H2 H3) as Hinvalid.
  fold issue in Hinvalid.
  assert (Hcount :
    occurrences issue
      (Entry_all_issues url_Parse mail_ParseAddress time_Parse entry)
    = occurrences issue
        (option_issues (fun summary => Text_Type_issues summary false)
                       (Entry_Summary entry))
      + occurrences issue
          (Entry_nested_issues url_Parse mail_ParseAddress time_Parse entry)).
  { rewrite (occurrences_Entry_all Hurl Hmail Htime).
    rewrite !occurrences_required_other by reflexivity.
    rewrite occurrences_Source_entries_other by reflexivity.
    rewrite occurrences_if_other by reflexivity.
    change (issue =? alternate_issue) with false. cbv iota. lia. }
  split; [|split].
  - rewrite Text_validate_eq. cbn [reported]. rewrite issues_of_error_of.
    unfold Text_issues. rewrite Hinvalid, !in_app_iff. simpl. tauto.
  - rewrite Text_validate_eq. cbn [reported]. rewrite issues_of_error_of.
    apply occurrences_zero. unfold Text_issues.
    rewrite !occurrences_app, (@occurrences_Common _ _ Hurl).
    now rewrite (@occurrences_optional issue url_Parse _ Hurl).
  - eexists. split; [apply Entry_Validate_sound, Hsound|].
    rewrite issues_of_error_of. split; [|split].
    + intros Hsummary.
      unfold Entry_all_issues, Entry_issues_from_Summary, Text_issues.
      rewrite Hsummary. cbn [option_issues]. rewrite Hinvalid.
      rewrite !in_app_iff. simpl. tauto.
    + exact Hcount.
    + intros _ Hsummary Hsource. apply occurrences_zero. rewrite Hcount.
      unfold Entry_nested_issues, Entry_source_feed.
      now rewrite Hsummary, Hsource.
Qed.

Lemma C5_witness :
  (exists r,
      Entry_Validate accept_all accept_all accept_all
        (sample_entry [sample_person] None None (Some invalid_text))
      = Returns r
      /\ In "Text.Type must be either: text, html or xhtml." (issues_of r))
  /\ (exists r,
         Entry_Validate accept_all accept_all accept_all
           (sample_entry [sample_person] (Some invalid_text) None None)
         = Returns r
         /\ ~ In "Text.Type must be either: text, html or xhtml."
                 (issues_of r)).
Proof.
  split.
  - destruct (@C5_Text_Type_summary_not_content
                accept_all accept_all accept_all
                (sample_entry [sample_person] None None (Some invalid_text))
                invalid_text)
      as [_ [_ [r [Hr [Hsummary _]]]]];
      try discriminate; try reflexivity; try (intros s; discriminate).
    exists r. split; [exact Hr | exact (Hsummary eq_refl)].
  - destruct (@C5_Text_Type_summary_not_content
                accept_all accept_all accept_all
                (sample_entry [sample_person] (Some invalid_text) None None)
                invalid_text)
      as [_ [_ [r [Hr [_ [_ Hcontent]]]]]];
      try discriminate; try reflexivity; try (intros s; discriminate).
    exists r. split; [exact Hr | exact (Hcontent eq_refl eq_refl eq_refl)].
Defined.

(* ================================================================= *)
(** ** Required fields *)


Section EmptyNeverParsed.
Variable url_Parse : string -> option string.
Variable mail_ParseAddress : string -> option string.
Variables time_Parse time_Parse' : string -> option string.
Hypothesis agree : forall s, s <> "" -> time_Parse s = time_Parse' s.

Local Abbreviation Feed_agree' :=
  (Feed_agree url_Parse mail_ParseAddress time_Parse time_Parse').
Local Abbreviation Entry_agree' :=
  (Entry_agree url_Parse mail_ParseAddress time_Parse time_Parse').








End EmptyNeverParsed.



(* ================================================================= *)
(** ** Reports without issues *)

Lemma app_nil_iff A (l1 l2 : list A) :
  l1 ++ l2 = [] <-> l1 = [] /\ l2 = [].
Proof.
  split.
  - apply app_eq_nil.
  - now intros [-> ->].
Qed.

Lemma error_of_nil_iff l : error_of l = None <-> l = [].
Proof. destruct l; split; intros H; try reflexivity; discriminate. Qed.

Lemma parse_issues_nil parse s :
  parse_issues parse s = [] <-> accepts parse s = true.
Proof.
  unfold parse_issues, accepts.
  destruct (parse s); split; intros H; try reflexivity; discriminate.
Qed.

Lemma optional_issues_nil parse s :
  optional_issues parse s = [] <-> accepts_optional parse s = true.
Proof.
  unfold optional_issues, accepts_optional.
  destruct (s =? ""); simpl; [tauto | apply parse_issues_nil].
Qed.

Lemma flat_map_nil A (f : A -> list string) (ok : A -> bool) l :
  (forall x, f x = [] <-> ok x = true) ->
  flat_map f l = [] <-> forallb ok l = true.
Proof.
  intros H. induction l as [|x l IH]; simpl; [tauto|].
  rewrite app_nil_iff, andb_true_iff, H, IH. tauto.
Qed.

Lemma option_issues_nil A (f : A -> list string) (ok : A -> bool) o :
  (forall x, f x = [] <-> ok x = true) ->
  option_issues f o = [] <-> option_ok ok o = true.
Proof. intros H. destruct o; simpl; [apply H | tauto]. Qed.

Lemma required_nil field issue :
  required field issue = [] <-> negb (field =? "") = true.
Proof.
  unfold required. destruct (field =? ""); simpl; split; intros H;
    try reflexivity; discriminate.
Qed.

Lemma extra_alternates_zero links :
  extra_alternates links false = 0
  <-> (count_alternate links <=? 1)%nat = true.
Proof. unfold extra_alternates. rewrite Nat.leb_le. lia. Qed.

Section AcceptanceFacts.
Variable url_Parse : string -> option string.
Variable mail_ParseAddress : string -> option string.
Variable time_Parse : string -> option string.

Lemma Common_issues_nil common :
  Common_issues url_Parse common = [] <-> Common_ok url_Parse common = true.
Proof. apply optional_issues_nil. Qed.

Lemma Text_issues_nil text isContent :
  Text_issues url_Parse text isContent = []
  <-> Text_ok url_Parse text isContent = true.
Proof.
  unfold Text_issues, Text_ok.
  rewrite !app_nil_iff, !andb_true_iff, Common_issues_nil,
    optional_issues_nil.
  assert (H : Text_Type_issues text isContent = []
              <-> isContent || (Text_Type text =? "")
                  || Text_Type_enumerated text = true).
  { unfold Text_Type_issues.
    destruct isContent, (Text_Type text =? ""), (Text_Type_enumerated text);
      simpl; split; intros H; try reflexivity; discriminate. }
  rewrite H. tauto.
Qed.

Lemma Person_issues_nil person :
  Person_issues url_Parse mail_ParseAddress person = []
  <-> Person_ok url_Parse mail_ParseAddress person = true.
Proof.
  unfold Person_issues, Person_ok.
  rewrite !app_nil_iff, !andb_true_iff, Common_issues_nil,
    !optional_issues_nil.
  tauto.
Qed.

Lemma Category_issues_nil category :
  Category_issues url_Parse category = []
  <-> Category_ok url_Parse category = true.
Proof.
  unfold Category_issues, Category_ok.
  now rewrite app_nil_iff, andb_true_iff, Common_issues_nil,
    optional_issues_nil.
Qed.

Lemma Generator_issues_nil generator :
  Generator_issues url_Parse generator = []
  <-> Generator_ok url_Parse generator = true.
Proof.
  unfold Generator_issues, Generator_ok.
  now rewrite app_nil_iff, andb_true_iff, Common_issues_nil,
    optional_issues_nil.
Qed.

Lemma Link_issues_nil link :
  Link_issues url_Parse link = [] <-> Link_ok url_Parse link = true.
Proof.
  unfold Link_issues, Link_ok.
  now rewrite app_nil_iff, andb_true_iff, Common_issues_nil,
    parse_issues_nil.
Qed.

Lemma Links_issues_nil links foundAlternate :
  Links_issues url_Parse links foundAlternate = []
  <-> forallb (Link_ok url_Parse) links = true
      /\ extra_alternates links foundAlternate = 0.
Proof.
  revert foundAlternate.
  induction links as [|link links IH]; intros found.
  - unfold extra_alternates, count_alternate. simpl.
    destruct found; simpl; tauto.
  - cbn [Links_issues forallb].
    rewrite !app_nil_iff, IH, andb_true_iff, Link_issues_nil.
    unfold extra_alternates, count_alternate. cbn [filter].
    destruct (is_alternate link), found; cbn [andb orb length];
      split; intros H; repeat split; try tauto; try lia;
      try (destruct H as [_ [H _]]; discriminate).
Qed.

Lemma Links_issues_ok links :
  Links_issues url_Parse links false = []
  <-> Links_ok url_Parse links = true.
Proof.
  unfold Links_ok.
  now rewrite Links_issues_nil, andb_true_iff, extra_alternates_zero.
Qed.

Lemma Author_rule_issues_nil feed :
  Author_rule_issues feed = []
  <-> negb ((length (Feed_Author feed) =? 0)%nat
            && existsb lacks_author (Feed_Entry feed)) = true.
Proof.
  unfold Author_rule_issues.
  destruct (_ && _); simpl; split; intros H; try reflexivity; discriminate.
Qed.

Lemma Feed_Updated_issues_nil feed :
  Feed_Updated_issues time_Parse feed = []
  <-> TimeStr_required_ok time_Parse (Feed_Updated feed) = true.
Proof.
  unfold Feed_Updated_issues, TimeStr_required_ok, TimeStr_issues.
  destruct (Feed_Updated feed =? ""); simpl.
  - split; discriminate.
  - apply parse_issues_nil.
Qed.

Lemma Entry_Updated_issues_nil entry :
  Entry_Updated_issues time_Parse entry = []
  <-> TimeStr_required_ok time_Parse (Entry_Updated entry) = true.
Proof.
  unfold Entry_Updated_issues, TimeStr_required_ok, TimeStr_issues.
  destruct (Entry_Updated entry =? ""); simpl.
  - split; discriminate.
  - apply parse_issues_nil.
Qed.

Lemma Feed_own_issues_nil feed :
  Feed_own_issues url_Parse mail_ParseAddress time_Parse feed = []
  <-> Feed_own_ok url_Parse mail_ParseAddress time_Parse feed = true.
Proof.
  unfold Feed_own_issues, Feed_issues_before_Updated, Feed_issues_to_Author,
    Feed_issues_to_ID, Feed_issues_Logo_Title, Feed_own_ok.
  rewrite !app_nil_iff, !andb_true_iff.
  rewrite Common_issues_nil, Author_rule_issues_nil, Links_issues_ok,
    Feed_Updated_issues_nil, !required_nil, !optional_issues_nil.
  rewrite !(flat_map_nil _ _ _ Person_issues_nil).
  rewrite (flat_map_nil _ _ _ Category_issues_nil).
  rewrite (option_issues_nil _ _ _ Generator_issues_nil).
  tauto.
Qed.

Lemma Entry_own_issues_nil entry :
  Entry_issues_to_Published url_Parse mail_ParseAddress time_Parse entry
  ++ Entry_issues_from_Summary url_Parse time_Parse entry = []
  <-> Entry_own_ok url_Parse mail_ParseAddress time_Parse entry = true.
Proof.
  unfold Entry_issues_to_Published, Entry_issues_from_Summary, Entry_own_ok.
  rewrite !app_nil_iff, !andb_true_iff.
  rewrite Common_issues_nil, Links_issues_ok, Entry_Updated_issues_nil,
    !required_nil, !optional_issues_nil.
  rewrite !(flat_map_nil _ _ _ Person_issues_nil).
  rewrite (flat_map_nil _ _ _ Category_issues_nil).
  rewrite (option_issues_nil _ (fun content => Text_ok url_Parse content true)
             _ (fun content => Text_issues_nil content true)).
  rewrite (option_issues_nil _ (fun summary => Text_ok url_Parse summary false)
             _ (fun summary => Text_issues_nil summary false)).
  tauto.
Qed.

End AcceptanceFacts.

Section Validity.
Variable url_Parse : string -> option string.
Variable mail_ParseAddress : string -> option string.
Variable time_Parse : string -> option string.

Local Abbreviation Feed_valid' :=
  (Feed_valid url_Parse mail_ParseAddress time_Parse).
Local Abbreviation Entry_valid' :=
  (Entry_valid url_Parse mail_ParseAddress time_Parse).
Local Abbreviation Feed_all_issues' :=
  (Feed_all_issues url_Parse mail_ParseAddress time_Parse).
Local Abbreviation Entry_all_issues' :=
  (Entry_all_issues url_Parse mail_ParseAddress time_Parse).

Lemma Feed_valid_eq feed :
  Feed_valid' feed
  = Feed_own_ok url_Parse mail_ParseAddress time_Parse feed
    && forallb Entry_valid' (Feed_Entry feed).
Proof. now destruct feed. Qed.

Lemma Entry_valid_eq entry :
  Entry_valid' entry
  = Entry_own_ok url_Parse mail_ParseAddress time_Parse entry
    && match Entry_Source entry with
       | Some source =>
           match Source_Feed source with
           | Some feed =>
               (length (Feed_Entry feed) =? 0)%nat && Feed_valid' feed
           | None => false
           end
       | None => true
       end.
Proof.
  destruct entry as [xn common author category content contributor id link
                     published rights [[[feed|]]|] summary title updated
                     extension]; reflexivity.
Qed.

Lemma Feed_valid_step feed :
  Forall (fun entry =>
            Entry_valid' entry = true
            <-> Entry_sound entry = true /\ Entry_all_issues' entry = [])
         (Feed_Entry feed) ->
  Feed_valid' feed = true
  <-> Feed_sound feed = true /\ Feed_all_issues' feed = [].
Proof.
  intros H. rewrite Feed_valid_eq, Feed_sound_eq.
  unfold Feed_all_issues.
  rewrite andb_true_iff, app_nil_iff, Feed_own_issues_nil.
  assert (Hentries :
    forallb Entry_valid' (Feed_Entry feed) = true
    <-> forallb Entry_sound (Feed_Entry feed) = true
        /\ Entries_issues url_Parse mail_ParseAddress time_Parse
             (Feed_Entry feed) = []).
  { induction H as [|entry entries Hentry _ IH].
    - simpl. tauto.
    - cbn [forallb Entries_issues flat_map].
      fold (Entries_issues url_Parse mail_ParseAddress time_Parse entries).
      rewrite !andb_true_iff, app_nil_iff, IH, Hentry.
      split.
      + intros [[Hs Ha] [Hss Has]].
        rewrite (Entry_reported _ _ _ _ Hs). tauto.
      + intros [[Hs Hss] [Hr Has]].
        rewrite (Entry_reported _ _ _ _ Hs) in Hr. tauto. }
  rewrite Hentries. tauto.
Qed.

Lemma Entry_valid_step entry :
  match Entry_source_feed entry with
  | Some feed =>
      Feed_valid' feed = true
      <-> Feed_sound feed = true /\ Feed_all_issues' feed = []
  | None => True
  end ->
  Entry_valid' entry = true
  <-> Entry_sound entry = true /\ Entry_all_issues' entry = [].
Proof.
  intros H. rewrite Entry_valid_eq, Entry_sound_eq.
  unfold Entry_all_issues, Entry_Source_issues, Entry_nested_issues.
  unfold Entry_source_feed in *.
  rewrite andb_true_iff, <- Entry_own_issues_nil, !app_nil_iff.
  destruct (Entry_Source entry) as [[[feed|]]|]; cbn [Source_Feed] in *.
  - cbn [option_issues]. unfold Source_entries_issues.
    rewrite andb_true_iff, H, Nat.eqb_eq.
    destruct (Feed_Entry feed) as [|e l]; cbn [length Nat.ltb Nat.leb].
    + split.
      * intros [[Hp Hs] [_ [Hsound Hall]]].
        rewrite (Feed_reported _ _ _ _ Hsound). tauto.
      * intros [Hsound [Hp [_ [Hs Hr]]]].
        rewrite (Feed_reported _ _ _ _ Hsound) in Hr. tauto.
    + split.
      * intros [_ [Hlen _]]. discriminate.
      * intros [_ [_ [Hsrc _]]]. discriminate.
  - split; [intros [_ Hf] | intros [Hf _]]; discriminate.
  - cbn [option_issues]. tauto.
Qed.

Lemma Feed_valid_iff feed :
  Feed_valid' feed = true
  <-> Feed_sound feed = true /\ Feed_all_issues' feed = [].
Proof.
  exact (@Feed_mutind
           (fun feed => Feed_valid' feed = true
                        <-> Feed_sound feed = true
                            /\ Feed_all_issues' feed = [])
           (fun entry => Entry_valid' entry = true
                         <-> Entry_sound entry = true
                             /\ Entry_all_issues' entry = [])
           Feed_valid_step Entry_valid_step feed).
Qed.

Lemma Entry_valid_iff entry :
  Entry_valid' entry = true
  <-> Entry_sound entry = true /\ Entry_all_issues' entry = [].
Proof.
  exact (@Entry_mutind
           (fun feed => Feed_valid' feed = true
                        <-> Feed_sound feed = true
                            /\ Feed_all_issues' feed = [])
           (fun entry => Entry_valid' entry = true
                         <-> Entry_sound entry = true
                             /\ Entry_all_issues' entry = [])
           Feed_valid_step Entry_valid_step entry).
Qed.

End Validity.

(* ================================================================= *)
(** ** Valid documents *)

Lemma Feed_Validate_nil_valid url_Parse mail_ParseAddress time_Parse feed :
  Feed_Validate url_Parse mail_ParseAddress time_Parse feed = Returns None
  <-> Feed_valid url_Parse mail_ParseAddress time_Parse feed = true.
Proof.
  rewrite Feed_valid_iff, Feed_Validate_outcome.
  destruct (Feed_sound feed).
  - rewrite <- error_of_nil_iff. split.
    + intros H. split; [reflexivity | congruence].
    + intros [_ H]. now rewrite H.
  - split; [discriminate | intros [H _]; discriminate].
Qed.

Lemma Entry_Validate_nil_valid url_Parse mail_ParseAddress time_Parse entry :
  Entry_Validate url_Parse mail_ParseAddress time_Parse entry = Returns None
  <-> Entry_valid url_Parse mail_ParseAddress time_Parse entry = true.
Proof.
  rewrite Entry_valid_iff, Entry_Validate_outcome.
  destruct (Entry_sound entry).
  - rewrite <- error_of_nil_iff. split.
    + intros H. split; [reflexivity | congruence].
    + intros [_ H]. now rewrite H.
  - split; [discriminate | intros [H _]; discriminate].
Qed.

(** X1. [Feed.Validate] returns [nil] exactly on the valid feeds: those
    that pass every test of the feed, whose entries are all valid, and
    whose sources all hold a valid feed without entries. *)
Theorem X1_Feed_Validate_nil_iff_valid
    (url_Parse mail_ParseAddress time_Parse : string -> option string)
    (feed : Feed) :
  Feed_Validate url_Parse mail_ParseAddress time_Parse feed = Returns None
  <-> Feed_valid url_Parse mail_ParseAddress time_Parse feed = true.
Proof. apply Feed_Validate_nil_valid. Qed.

(** X2. [Entry.Validate] returns [nil] exactly on the valid entries:
    those that pass every test of the entry and whose source, if any,
    holds a valid feed without entries. *)
Theorem X2_Entry_Validate_nil_iff_valid
    (url_Parse mail_ParseAddress time_Parse : string -> option string)
    (entry : Entry) :
  Entry_Validate url_Parse mail_ParseAddress time_Parse entry = Returns None
  <-> Entry_valid url_Parse mail_ParseAddress time_Parse entry = true.
Proof. apply Entry_Validate_nil_valid. Qed.

(** X3. When [Feed.Validate] returns [nil], [Entry.Validate] returns
    [nil] on every entry of the feed, and the source of every entry, if
    it has one, holds a feed that has no entries and on which
    [Feed.Validate] returns [nil]. *)
Theorem X3_valid_feed_hereditary
    (url_Parse mail_ParseAddress time_Parse : string -> option string)
    (feed : Feed) :
  Feed_Validate url_Parse mail_ParseAddress time_Parse feed = Returns None ->
  forall entry,
    In entry (Feed_Entry feed) ->
    Entry_Validate url_Parse mail_ParseAddress time_Parse entry = Returns None
    /\ forall source,
         Entry_Source entry = Some source ->
         exists nested,
           Source_Feed source = Some nested
           /\ Feed_Entry nested = []
           /\ Feed_Validate url_Parse mail_ParseAddress time_Parse nested
              = Returns None.
Proof.
  intros Hfeed entry Hin.
  apply Feed_Validate_nil_valid in Hfeed.
  rewrite Feed_valid_eq in Hfeed. apply andb_true_iff in Hfeed as [_ Hall].
  rewrite forallb_forall in Hall. specialize (Hall entry Hin).
  split; [now apply Entry_Validate_nil_valid|].
  intros source Hsource. rewrite Entry_valid_eq, Hsource in Hall.
  apply andb_true_iff in Hall as [_ Hsrc].
  destruct (Source_Feed source) as [nested|]; [|discriminate].
  apply andb_true_iff in Hsrc as [Hlen Hvalid].
  exists nested. split; [reflexivity|]. split.
  - apply Nat.eqb_eq in Hlen. now destruct (Feed_Entry nested).
  - now apply Feed_Validate_nil_valid.
Qed.

Lemma X3_witness :
  Entry_Validate accept_all accept_all accept_all entry_with_source
  = Returns None
  /\ exists nested,
       Source_Feed (mkSource (Some (sample_feed [sample_person] [] [])))
       = Some nested
       /\ Feed_Entry nested = []
       /\ Feed_Validate accept_all accept_all accept_all nested
          = Returns None.
Proof.
  destruct (@X3_valid_feed_hereditary accept_all accept_all accept_all
              valid_feed_with_source eq_refl entry_with_source
              (or_introl eq_refl)) as [Hentry Hsource].
  split; [exact Hentry | exact (Hsource _ eq_refl)].
Defined.

(* ================================================================= *)
(** ** Where a panic comes from *)

Section Panics.
Variable url_Parse : string -> option string.
Variable mail_ParseAddress : string -> option string.
Variable time_Parse : string -> option string.

Lemma Feed_panics_unsound feed :
  Feed_Validate url_Parse mail_ParseAddress time_Parse feed
  = Panics NilDereference
  <-> Feed_sound feed = false.
Proof.
  rewrite Feed_Validate_outcome.
  destruct (Feed_sound feed); split; intros H; try reflexivity; discriminate.
Qed.

Lemma Entry_panics_unsound entry :
  Entry_Validate url_Parse mail_ParseAddress time_Parse entry
  = Panics NilDereference
  <-> Entry_sound entry = false.
Proof.
  rewrite Entry_Validate_outcome.
  destruct (Entry_sound entry); split; intros H; try reflexivity;
    discriminate.
Qed.

End Panics.

(** X4. [Feed.Validate] panics exactly when [Entry.Validate] panics on
    one of the entries of the feed; no defect of the feed itself makes
    it panic, and the panic is then the nil dereference. *)
Theorem X4_Feed_Validate_panics_iff_entry
    (url_Parse mail_ParseAddress time_Parse : string -> option string)
    (feed : Feed) (p : panic) :
  Feed_Validate url_Parse mail_ParseAddress time_Parse feed = Panics p
  <-> p = NilDereference
      /\ exists entry,
           In entry (Feed_Entry feed)
           /\ Entry_Validate url_Parse mail_ParseAddress time_Parse entry
              = Panics NilDereference.
Proof.
  assert (Hex : Feed_sound feed = false
                <-> exists entry,
                      In entry (Feed_Entry feed)
                      /\ Entry_Validate url_Parse mail_ParseAddress
                           time_Parse entry = Panics NilDereference).
  { rewrite Feed_sound_eq. split.
    - intros H. induction (Feed_Entry feed) as [|entry l IH];
        [discriminate|].
      simpl in H. destruct (Entry_sound entry) eqn:E.
      + destruct (IH H) as [e [Hin He]]. exists e. split; [now right | exact He].
      + exists entry. split; [now left | now apply Entry_panics_unsound].
    - intros [entry [Hin He]]. apply Entry_panics_unsound in He.
      destruct (forallb Entry_sound (Feed_Entry feed)) eqn:E; [|reflexivity].
      rewrite forallb_forall in E. rewrite (E entry Hin) in He. discriminate. }
  rewrite <- Hex. rewrite Feed_Validate_outcome.
  destruct (Feed_sound feed); split.
  - discriminate.
  - intros [_ H]. discriminate.
  - intros H. injection H as <-. now split.
  - intros [-> _]. reflexivity.
Qed.

(** X5. [Entry.Validate] panics exactly when the entry has a source
    whose feed is nil, or on whose feed [Feed.Validate] panics; the
    panic is then the nil dereference. *)
Theorem X5_Entry_Validate_panics_iff_source
    (url_Parse mail_ParseAddress time_Parse : string -> option string)
    (entry : Entry) (p : panic) :
  Entry_Validate url_Parse mail_ParseAddress time_Parse entry = Panics p
  <-> p = NilDereference
      /\ exists source,
           Entry_Source entry = Some source
           /\ (Source_Feed source = None
               \/ exists feed,
                    Source_Feed source = Some feed
                    /\ Feed_Validate url_Parse mail_ParseAddress time_Parse
                         feed = Panics NilDereference).
Proof.
  rewrite Entry_Validate_outcome, Entry_sound_eq. unfold Entry_source_feed.
  destruct (Entry_Source entry) as [[[feed|]]|]; cbn [Source_Feed].
  - destruct (Feed_sound feed) eqn:E; split.
    + discriminate.
    + intros [_ [source [Hs [Hnil|[feed' [Hf Hp]]]]]].
      * injection Hs as <-. discriminate.
      * injection Hs as <-. cbn in Hf. injection Hf as <-.
        apply Feed_panics_unsound in Hp. congruence.
    + intros H. injection H as <-. split; [reflexivity|].
      eexists. split; [reflexivity|]. right. exists feed.
      split; [reflexivity | now apply Feed_panics_unsound].
    + intros [-> _]. reflexivity.
  - split.
    + intros H. injection H as <-. split; [reflexivity|].
      eexists. split; [reflexivity | now left].
    + intros [-> _]. reflexivity.
  - split; [discriminate|].
    intros [_ [source [Hs _]]]. discriminate.
Qed.

(** X6. An error returned by [Feed.Validate] or by [Entry.Validate] is a
    [*ValidationError] that holds at least one issue. *)
Theorem X6_returned_error_has_an_issue
    (url_Parse mail_ParseAddress time_Parse : string -> option string) :
  (forall feed,
      match Feed_Validate url_Parse mail_ParseAddress time_Parse feed with
      | Returns (Some e) =>
          exists issue l, e = EValidation (mkValidationError (issue :: l))
      | _ => True
      end)
  /\ (forall entry,
         match Entry_Validate url_Parse mail_ParseAddress time_Parse entry with
         | Returns (Some e) =>
             exists issue l, e = EValidation (mkValidationError (issue :: l))
         | _ => True
         end).
Proof.
  split.
  - intros feed. rewrite Feed_Validate_outcome.
    destruct (Feed_sound feed); [|exact I].
    destruct (Feed_all_issues _ _ _ feed) as [|issue l]; [exact I|].
    now exists issue, l.
  - intros entry. rewrite Entry_Validate_outcome.
    destruct (Entry_sound entry); [|exact I].
    destruct (Entry_all_issues _ _ _ entry) as [|issue l]; [exact I|].
    now exists issue, l.
Qed.

(* ================================================================= *)
(** ** Nothing is dropped *)

Lemma In_optional_issues parse s msg :
  s <> "" -> parse s = Some msg -> In msg (optional_issues parse s).
Proof.
  intros Hs Hp. unfold optional_issues, parse_issues.
  apply String.eqb_neq in Hs. rewrite Hs, Hp. now left.
Qed.

Lemma In_option_issues A (f : A -> list string) o a x :
  o = Some a -> In x (f a) -> In x (option_issues f o).
Proof. now intros ->. Qed.

Lemma In_flat_map_issues A (f : A -> list string) l a x :
  In a l -> In x (f a) -> In x (flat_map f l).
Proof. intros Ha Hx. apply in_flat_map. now exists a. Qed.

Lemma In_Links_issues url_Parse links foundAlternate link x :
  In link links -> In x (Link_issues url_Parse link) ->
  In x (Links_issues url_Parse links foundAlternate).
Proof.
  revert foundAlternate.
  induction links as [|l links IH]; intros found Hin Hx; [contradiction|].
  cbn [Links_issues]. rewrite !in_app_iff.
  destruct Hin as [->|Hin]; [now left|].
  right. right. now apply IH.
Qed.

Section Reports.
Variable url_Parse : string -> option string.
Variable mail_ParseAddress : string -> option string.
Variable time_Parse : string -> option string.

Lemma reported_Common common :
  reported (validateCommon url_Parse common) = Common_issues url_Parse common.
Proof. rewrite validateCommon_eq. apply issues_of_error_of. Qed.

Lemma reported_Text text isContent :
  reported (Text_validate url_Parse text isContent)
  = Text_issues url_Parse text isContent.
Proof. rewrite Text_validate_eq. apply issues_of_error_of. Qed.

Lemma reported_Person person :
  reported (Person_validate url_Parse mail_ParseAddress person)
  = Person_issues url_Parse mail_ParseAddress person.
Proof. rewrite Person_validate_eq. apply issues_of_error_of. Qed.

Lemma reported_TimeStr timeStr :
  reported (TimeStr_validate time_Parse timeStr)
  = TimeStr_issues time_Parse timeStr.
Proof. rewrite TimeStr_validate_eq. apply issues_of_error_of. Qed.

Lemma reported_Category category :
  reported (Category_validate url_Parse category)
  = Category_issues url_Parse category.
Proof. rewrite Category_validate_eq. apply issues_of_error_of. Qed.

Lemma reported_Generator generator :
  reported (Generator_validate url_Parse generator)
  = Generator_issues url_Parse generator.
Proof. rewrite Generator_validate_eq. apply issues_of_error_of. Qed.

Lemma reported_Link link :
  reported (Link_validate url_Parse link) = Link_issues url_Parse link.
Proof. rewrite Link_validate_eq. apply issues_of_error_of. Qed.

End Reports.

(** X7. [Feed.Validate] drops nothing: on a feed without nil source
    feeds, its report holds every issue that the validators of the
    common attributes, of each author, contributor, category and link,
    of the generator and of each entry report, and the message of the
    syntax checker for an icon, a logo or an [Updated] that is set and
    does not parse. *)
Theorem X7_Feed_Validate_reports_every_part
    (url_Parse mail_ParseAddress time_Parse : string -> option string)
    (feed : Feed) :
  Feed_sound feed = true ->
  exists r,
    Feed_Validate url_Parse mail_ParseAddress time_Parse feed = Returns r
    /\ incl (reported (validateCommon url_Parse (Feed_Common feed)))
            (issues_of r)
    /\ (forall person,
           In person (Feed_Author feed) \/ In person (Feed_Contributor feed) ->
           incl (reported (Person_validate url_Parse mail_ParseAddress person))
                (issues_of r))
    /\ (forall category,
           In category (Feed_Category feed) ->
           incl (reported (Category_validate url_Parse category))
                (issues_of r))
    /\ (forall generator,
           Feed_Generator feed = Some generator ->
           incl (reported (Generator_validate url_Parse generator))
                (issues_of r))
    /\ (forall link,
           In link (Feed_Link feed) ->
           incl (reported (Link_validate url_Parse link)) (issues_of r))
    /\ (forall msg,
           Feed_Icon feed <> "" -> url_Parse (Feed_Icon feed) = Some msg ->
           In msg (issues_of r))
    /\ (forall msg,
           Feed_Logo feed <> "" -> url_Parse (Feed_Logo feed) = Some msg ->
           In msg (issues_of r))
    /\ (forall msg,
           Feed_Updated feed <> "" ->
           time_Parse (Feed_Updated feed) = Some msg ->
           In msg (issues_of r))
    /\ (forall entry,
           In entry (Feed_Entry feed) ->
           incl (reported (Entry_Validate url_Parse mail_ParseAddress
                             time_Parse entry))
                (issues_of r)).
Proof.
  intros Hsound.
  eexists. split; [apply Feed_Validate_sound, Hsound|].
  rewrite issues_of_error_of.
  unfold Feed_all_issues, Feed_own_issues, Feed_issues_before_Updated,
    Feed_issues_to_Author, Feed_issues_to_ID, Feed_issues_Logo_Title,
    Entries_issues.
  repeat split.
  - intros x Hx. rewrite reported_Common in Hx.
    rewrite !in_app_iff. tauto.
  - intros person [Hin|Hin] x Hx; rewrite reported_Person in Hx;
      pose proof (In_flat_map_issues _ _ _ _ Hin Hx);
      rewrite !in_app_iff; tauto.
  - intros category Hin x Hx. rewrite reported_Category in Hx.
    pose proof (In_flat_map_issues _ _ _ _ Hin Hx).
    rewrite !in_app_iff. tauto.
  - intros generator Hg x Hx. rewrite reported_Generator in Hx.
    pose proof (@In_option_issues _ (Generator_issues url_Parse) _ _ _ Hg Hx).
    rewrite !in_app_iff. tauto.
  - intros link Hin x Hx. rewrite reported_Link in Hx.
    pose proof (In_Links_issues _ _ false _ _ Hin Hx).
    rewrite !in_app_iff. tauto.
  - intros msg Hs Hp. pose proof (@In_optional_issues _ _ _ Hs Hp).
    rewrite !in_app_iff. tauto.
  - intros msg Hs Hp. pose proof (@In_optional_issues _ _ _ Hs Hp).
    rewrite !in_app_iff. tauto.
  - intros msg Hs Hp.
    assert (H : In msg (Feed_Updated_issues time_Parse feed)).
    { unfold Feed_Updated_issues, TimeStr_issues, parse_issues.
      apply String.eqb_neq in Hs. rewrite Hs, Hp. now left. }
    rewrite !in_app_iff. tauto.
  - intros entry Hin x Hx.
    pose proof (In_flat_map_issues
                  (fun entry =>
                     reported (Entry_Validate url_Parse mail_ParseAddress
                                 time_Parse entry)) _ _ _ Hin Hx).
    rewrite !in_app_iff. tauto.
Qed.

Lemma X7_witness :
  exists r,
    Feed_Validate accept_all accept_all accept_all feed_nested_author_issue
    = Returns r
    /\ forall entry,
         In entry (Feed_Entry feed_nested_author_issue) ->
         incl (reported (Entry_Validate accept_all accept_all accept_all
                           entry))
              (issues_of r).
Proof.
  destruct (@X7_Feed_Validate_reports_every_part
              accept_all accept_all accept_all feed_nested_author_issue
              eq_refl)
    as [r [Hr [_ [_ [_ [_ [_ [_ [_ [_ Hentries]]]]]]]]]].
  exists r. split; [exact Hr | exact Hentries].
Defined.

(** X8. [Entry.Validate] drops nothing: on an entry without nil source
    feeds, its report holds every issue that the validators of the
    common attributes, of each author, contributor, category and link,
    of the content (as a content), of the summary and of the source
    feed report, and the message of [time.Parse] for a [Published] or
    an [Updated] that is set and does not parse. *)
Theorem X8_Entry_Validate_reports_every_part
    (url_Parse mail_ParseAddress time_Parse : string -> option string)
    (entry : Entry) :
  Entry_sound entry = true ->
  exists r,
    Entry_Validate url_Parse mail_ParseAddress time_Parse entry = Returns r
    /\ incl (reported (validateCommon url_Parse (Entry_Common entry)))
            (issues_of r)
    /\ (forall person,
           In person (Entry_Author entry)
           \/ In person (Entry_Contributor entry) ->
           incl (reported (Person_validate url_Parse mail_ParseAddress person))
                (issues_of r))
    /\ (forall category,
           In category (Entry_Category entry) ->
           incl (reported (Category_validate url_Parse category))
                (issues_of r))
    /\ (forall content,
           Entry_Content entry = Some content ->
           incl (reported (Text_validate url_Parse content true))
                (issues_of r))
    /\ (forall link,
           In link (Entry_Link entry) ->
           incl (reported (Link_validate url_Parse link)) (issues_of r))
    /\ (forall msg,
           Entry_Published entry <> "" ->
           time_Parse (Entry_Published entry) = Some msg ->
           In msg (issues_of r))
    /\ (forall summary,
           Entry_Summary entry = Some summary ->
           incl (reported (Text_validate url_Parse summary false))
                (issues_of r))
    /\ (forall msg,
           Entry_Updated entry <> "" ->
           time_Parse (Entry_Updated entry) = Some msg ->
           In msg (issues_of r))
    /\ (forall source feed,
           Entry_Source entry = Some source ->
           Source_Feed source = Some feed ->
           incl (reported (Feed_Validate url_Parse mail_ParseAddress
                             time_Parse feed))
                (issues_of r)).
Proof.
  intros Hsound.
  eexists. split; [apply Entry_Validate_sound, Hsound|].
  rewrite issues_of_error_of.
  unfold Entry_all_issues, Entry_issues_to_Published,
    Entry_issues_from_Summary.
  repeat split.
  - intros x Hx. rewrite reported_Common in Hx.
    rewrite !in_app_iff. tauto.
  - intros person [Hin|Hin] x Hx; rewrite reported_Person in Hx;
      pose proof (In_flat_map_issues _ _ _ _ Hin Hx);
      rewrite !in_app_iff; tauto.
  - intros category Hin x Hx. rewrite reported_Category in Hx.
    pose proof (In_flat_map_issues _ _ _ _ Hin Hx).
    rewrite !in_app_iff. tauto.
  - intros content Hc x Hx. rewrite reported_Text in Hx.
    pose proof (@In_option_issues _
                  (fun content => Text_issues url_Parse content true)
                  _ _ _ Hc Hx).
    rewrite !in_app_iff. tauto.
  - intros link Hin x Hx. rewrite reported_Link in Hx.
    pose proof (In_Links_issues _ _ false _ _ Hin Hx).
    rewrite !in_app_iff. tauto.
  - intros msg Hs Hp. pose proof (@In_optional_issues _ _ _ Hs Hp).
    rewrite !in_app_iff. tauto.
  - intros summary Hc x Hx. rewrite reported_Text in Hx.
    pose proof (@In_option_issues _
                  (fun summary => Text_issues url_Parse summary false)
                  _ _ _ Hc Hx).
    rewrite !in_app_iff. tauto.
  - intros msg Hs Hp.
    assert (H : In msg (Entry_Updated_issues time_Parse entry)).
    { unfold Entry_Updated_issues, TimeStr_issues, parse_issues.
      apply String.eqb_neq in Hs. rewrite Hs, Hp. now left. }
    rewrite !in_app_iff. tauto.
  - intros source feed Hsource Hfeed x Hx.
    assert (H : In x (Entry_nested_issues url_Parse mail_ParseAddress
                        time_Parse entry)).
    { unfold Entry_nested_issues, Entry_source_feed.
      now rewrite Hsource, Hfeed. }
    rewrite !in_app_iff. tauto.
Qed.

Lemma X8_witness :
  exists r,
    Entry_Validate accept_all accept_all accept_all entry_untitled_source
    = Returns r
    /\ incl (reported (Feed_Validate accept_all accept_all accept_all
                         untitled_source_feed))
            (issues_of r).
Proof.
  destruct (@X8_Entry_Validate_reports_every_part
              accept_all accept_all accept_all entry_untitled_source
              eq_refl)
    as [r [Hr [_ [_ [_ [_ [_ [_ [_ [_ Hsource]]]]]]]]]].
  exists r. split; [exact Hr|].
  exact (Hsource (mkSource (Some untitled_source_feed)) untitled_source_feed
           eq_refl eq_refl).
Defined.

(* ================================================================= *)
(** ** The aggregator under composition *)

Lemma issue_lines_app l1 l2 :
  issue_lines (l1 ++ l2) = (issue_lines l1 ++ issue_lines l2)%string.
Proof.
  unfold issue_lines.
  induction l1 as [|issue l1 IH]; cbn [app map fold_right]; [reflexivity|].
  now rewrite IH, string_append_assoc.
Qed.

Lemma Error_header_lines err :
  ValidationError_Error err
  = (("An ATOM validation error occured:" ++ LF)
     ++ issue_lines (issues err))%string.
Proof. unfold ValidationError_Error. apply Error_loop. Qed.

(** X9. What one aggregator hands out through [NilIfEmpty] and another
    takes in through [Merge] is the whole list of issues, in order: the
    receiver ends with its own issues followed by those of the sender,
    also when the sender has none and hands out [nil]; and two such
    merges in a row append the issues of the two senders one after the
    other. *)
Theorem X9_Merge_of_NilIfEmpty_appends (a b c : ValidationError) :
  exists e,
    NilIfEmpty b = Returns (e, b)
    /\ Merge e a = Returns (tt, mkValidationError (issues a ++ issues b))
    /\ exists e',
         NilIfEmpty c = Returns (e', c)
         /\ (Merge e ;; Merge e') a
            = Returns (tt, mkValidationError
                             (issues a ++ issues b ++ issues c)).
Proof.
  destruct a as [la], b as [[|ib lb]], c as [[|ic lc]];
    unfold NilIfEmpty; cbn [issues length Nat.eqb];
    eexists; (split; [reflexivity|]);
    (split; [cbn; now rewrite ?app_nil_r|]);
    eexists; (split; [reflexivity|]);
    unfold bind; cbn; now rewrite <- ?app_assoc, ?app_nil_r.
Qed.

(** X10. Rendering follows the aggregator: after [Add] the text of
    [Error] is the text before followed by the line of the new issue,
    and after [Merge] of a [*ValidationError] it is the text before
    followed by the lines of the merged issues, without a second
    header. *)
Theorem X10_Error_after_Add_and_Merge (err other : ValidationError)
    (issue : string) :
  (exists err',
      Add issue err = Returns (tt, err')
      /\ ValidationError_Error err'
         = (ValidationError_Error err ++ "- " ++ issue ++ LF)%string)
  /\ (exists err',
         Merge (Some (EValidation other)) err = Returns (tt, err')
         /\ ValidationError_Error err'
            = (ValidationError_Error err
               ++ issue_lines (issues other))%string).
Proof.
  split; eexists; (split; [reflexivity|]);
    rewrite !Error_header_lines; cbn [issues];
    rewrite issue_lines_app, string_append_assoc; [|reflexivity].
  unfold issue_lines at 2, issue_line. simpl.
  now rewrite string_append_empty.
Qed.

Lemma contains_append_l t s prefix :
  contains t s -> contains (prefix ++ t)%string s.
Proof.
  intros [before [after ->]]. exists (prefix ++ before)%string, after.
  now rewrite string_append_assoc.
Qed.

Lemma contains_issue_lines l issue :
  In issue l -> contains (issue_lines l) ("- " ++ issue ++ LF)%string.
Proof.
  induction l as [|x l IH]; intros Hin; [contradiction|].
  change (issue_lines (x :: l))
    with (issue_line x ++ issue_lines l)%string.
  destruct Hin as [->|Hin].
  - exists "", (issue_lines l). unfold issue_line. simpl.
    now rewrite !string_append_assoc.
  - now apply contains_append_l, IH.
Qed.

(** X11. Every collected issue can be found in the text of [Error]: the
    text contains the line made of a dash, a space, the issue and a
    line feed, and so contains the issue. *)
Theorem X11_Error_contains_every_issue (err : ValidationError)
    (issue : string) :
  In issue (issues err) ->
  contains (ValidationError_Error err) ("- " ++ issue ++ LF)%string
  /\ contains (ValidationError_Error err) issue.
Proof.
  intros Hin.
  assert (H : contains (ValidationError_Error err)
                       ("- " ++ issue ++ LF)%string).
  { rewrite Error_header_lines.
    now apply contains_append_l, contains_issue_lines. }
  split; [exact H|].
  destruct H as [before [after ->]].
  exists (before ++ "- ")%string, (LF ++ after)%string.
  now rewrite !string_append_assoc.
Qed.

Lemma X11_witness :
  contains (ValidationError_Error two_issues)
           ("- " ++ "Feed.Title can't be empty." ++ LF)%string
  /\ contains (ValidationError_Error two_issues) "Feed.Title can't be empty.".
Proof.
  apply (@X11_Error_contains_every_issue two_issues
           "Feed.Title can't be empty.").
  simpl. right. left. reflexivity.
Defined.

(* ================================================================= *)
(** ** What the validators of the parts accept *)

(** X12. Each validator of a part returns [nil] exactly when its tests
    pass: [Base], [Src], [URI], [Email] and [Scheme] are checked only
    when they are set, the [Href] of a link and the text handed to
    [TimeStr.validate] are checked always, and the type of a text is
    tested only when the text is not validated as a content. *)
Theorem X12_part_validators_nil_iff_ok
    (url_Parse mail_ParseAddress time_Parse : string -> option string) :
  (forall common,
      validateCommon url_Parse common = Returns None
      <-> Common_ok url_Parse common = true)
  /\ (forall text isContent,
         Text_validate url_Parse text isContent = Returns None
         <-> Text_ok url_Parse text isContent = true)
  /\ (forall person,
         Person_validate url_Parse mail_ParseAddress person = Returns None
         <-> Person_ok url_Parse mail_ParseAddress person = true)
  /\ (forall timeStr,
         TimeStr_validate time_Parse timeStr = Returns None
         <-> accepts time_Parse timeStr = true)
  /\ (forall category,
         Category_validate url_Parse category = Returns None
         <-> Category_ok url_Parse category = true)
  /\ (forall generator,
         Generator_validate url_Parse generator = Returns None
         <-> Generator_ok url_Parse generator = true)
  /\ (forall link,
         Link_validate url_Parse link = Returns None
         <-> Link_ok url_Parse link = true).
Proof.
  assert (Hnil : forall l, Returns (error_of l) = Returns None <-> l = []).
  { intros l. rewrite <- error_of_nil_iff.
    split; [intros H; now injection H | intros H; now rewrite H]. }
  repeat split; intros H.
  - rewrite validateCommon_eq, Hnil in H. now apply Common_issues_nil.
  - rewrite validateCommon_eq, Hnil. now apply Common_issues_nil.
  - rewrite Text_validate_eq, Hnil in H. now apply Text_issues_nil.
  - rewrite Text_validate_eq, Hnil. now apply Text_issues_nil.
  - rewrite Person_validate_eq, Hnil in H. now apply Person_issues_nil.
  - rewrite Person_validate_eq, Hnil. now apply Person_issues_nil.
  - rewrite TimeStr_validate_eq, Hnil in H. now apply parse_issues_nil.
  - rewrite TimeStr_validate_eq, Hnil. now apply parse_issues_nil.
  - rewrite Category_validate_eq, Hnil in H. now apply Category_issues_nil.
  - rewrite Category_validate_eq, Hnil. now apply Category_issues_nil.
  - rewrite Generator_validate_eq, Hnil in H. now apply Generator_issues_nil.
  - rewrite Generator_validate_eq, Hnil. now apply Generator_issues_nil.
  - rewrite Link_validate_eq, Hnil in H. now apply Link_issues_nil.
  - rewrite Link_validate_eq, Hnil. now apply Link_issues_nil.
Qed.

(* ================================================================= *)
(** ** The fields that are not read *)

Lemma flat_map_erase A (f : A -> list string) (g : A -> A) l :
  (forall x, f (g x) = f x) -> flat_map f (map g l) = flat_map f l.
Proof.
  intros H. induction l as [|x l IH]; simpl; [reflexivity|].
  now rewrite H, IH.
Qed.

Lemma option_issues_erase A (f : A -> list string) (g : A -> A) o :
  (forall x, f (g x) = f x) ->
  option_issues f (option_map g o) = option_issues f o.
Proof. intros H. destruct o; simpl; [apply H | reflexivity]. Qed.

Lemma Links_issues_erase url_Parse links foundAlternate :
  Links_issues url_Parse (map erase_Link links) foundAlternate
  = Links_issues url_Parse links foundAlternate.
Proof.
  revert foundAlternate.
  induction links as [|link links IH]; intros found; [reflexivity|].
  cbn [map Links_issues]. now rewrite IH.
Qed.

Lemma Feed_Entry_erase feed :
  Feed_Entry (erase_Feed feed) = map erase_Entry (Feed_Entry feed).
Proof. now destruct feed. Qed.

Lemma lacks_author_erase entries :
  existsb lacks_author (map erase_Entry entries)
  = existsb lacks_author entries.
Proof.
  induction entries as [|entry entries IH]; [reflexivity|].
  cbn [map existsb]. rewrite IH. f_equal.
  destruct entry. unfold lacks_author. simpl. now rewrite length_map.
Qed.

Section Erasure.
Variable url_Parse : string -> option string.
Variable mail_ParseAddress : string -> option string.
Variable time_Parse : string -> option string.

Lemma Feed_own_issues_erase feed :
  Feed_own_issues url_Parse mail_ParseAddress time_Parse (erase_Feed feed)
  = Feed_own_issues url_Parse mail_ParseAddress time_Parse feed.
Proof.
  unfold Feed_own_issues, Feed_issues_before_Updated, Feed_issues_to_Author,
    Feed_issues_to_ID, Feed_issues_Logo_Title, Feed_Updated_issues,
    Author_rule_issues.
  rewrite Feed_Entry_erase, lacks_author_erase.
  destruct feed as [xn common author category contributor generator icon id
                    link logo rights subtitle title updated entry extension].
  cbn [erase_Feed Feed_Common Feed_Author Feed_Category Feed_Contributor
       Feed_Generator Feed_Icon Feed_ID Feed_Link Feed_Logo Feed_Title
       Feed_Updated].
  rewrite !(flat_map_erase (Person_issues url_Parse mail_ParseAddress)
              erase_Person) by reflexivity.
  rewrite (flat_map_erase (Category_issues url_Parse) erase_Category)
    by reflexivity.
  rewrite (option_issues_erase (Generator_issues url_Parse) erase_Generator)
    by reflexivity.
  now rewrite Links_issues_erase, length_map.
Qed.

Lemma Entry_issues_erase entry :
  Entry_issues_to_Published url_Parse mail_ParseAddress time_Parse
    (erase_Entry entry)
  = Entry_issues_to_Published url_Parse mail_ParseAddress time_Parse entry
  /\ Entry_issues_from_Summary url_Parse time_Parse (erase_Entry entry)
     = Entry_issues_from_Summary url_Parse time_Parse entry.
Proof.
  unfold Entry_issues_to_Published, Entry_issues_from_Summary,
    Entry_Updated_issues.
  destruct entry as [xn common author category content contributor id link
                     published rights source summary title updated extension].
  cbn [erase_Entry Entry_Common Entry_Author Entry_Category Entry_Content
       Entry_Contributor Entry_ID Entry_Link Entry_Published Entry_Summary
       Entry_Title Entry_Updated].
  rewrite !(flat_map_erase (Person_issues url_Parse mail_ParseAddress)
              erase_Person) by reflexivity.
  rewrite (flat_map_erase (Category_issues url_Parse) erase_Category)
    by reflexivity.
  rewrite (option_issues_erase
             (fun content => Text_issues url_Parse content true) erase_Text)
    by reflexivity.
  rewrite (option_issues_erase
             (fun summary => Text_issues url_Parse summary false) erase_Text)
    by reflexivity.
  now rewrite Links_issues_erase.
Qed.

Lemma Entry_Source_erase entry :
  Entry_Source (erase_Entry entry)
  = match Entry_Source entry with
    | Some source =>
        Some (mkSource (match Source_Feed source with
                        | Some feed => Some (erase_Feed feed)
                        | None => None
                        end))
    | None => None
    end.
Proof. now destruct entry. Qed.

Lemma Feed_erase_step feed :
  Forall (fun entry =>
            Entry_Validate url_Parse mail_ParseAddress time_Parse
              (erase_Entry entry)
            = Entry_Validate url_Parse mail_ParseAddress time_Parse entry)
         (Feed_Entry feed) ->
  Feed_Validate url_Parse mail_ParseAddress time_Parse (erase_Feed feed)
  = Feed_Validate url_Parse mail_ParseAddress time_Parse feed.
Proof.
  intros H. rewrite !Feed_Validate_eq, Feed_own_issues_erase, Feed_Entry_erase.
  replace (merged_all (Entry_Validate url_Parse mail_ParseAddress time_Parse)
             (map erase_Entry (Feed_Entry feed)))
    with (merged_all (Entry_Validate url_Parse mail_ParseAddress time_Parse)
            (Feed_Entry feed)); [reflexivity|].
  induction H as [|entry entries Hentry _ IH]; [reflexivity|].
  cbn [map merged_all]. now rewrite Hentry, IH.
Qed.

Lemma Entry_erase_step entry :
  match Entry_source_feed entry with
  | Some feed =>
      Feed_Validate url_Parse mail_ParseAddress time_Parse (erase_Feed feed)
      = Feed_Validate url_Parse mail_ParseAddress time_Parse feed
  | None => True
  end ->
  Entry_Validate url_Parse mail_ParseAddress time_Parse (erase_Entry entry)
  = Entry_Validate url_Parse mail_ParseAddress time_Parse entry.
Proof.
  intros H. rewrite !Entry_Validate_eq, Entry_Source_erase.
  destruct (Entry_issues_erase entry) as [-> ->].
  unfold Entry_source_feed in H.
  destruct (Entry_Source entry) as [[[feed|]]|]; cbn [Source_Feed] in *;
    try reflexivity.
  rewrite H. unfold Source_entries_issues.
  now rewrite Feed_Entry_erase, length_map.
Qed.

End Erasure.

(** X13. The validators read only the fields they test.  Setting every
    other field of a document to its zero value, at every depth (the
    names of the elements, [Lang], the body of a text, the name of a
    person, the term and the label of a category, the version and the
    text of the generator, the attributes of a link other than [Href]
    and [Rel], [Rights], [Subtitle] and the extensions), changes neither
    the result of [Feed.Validate] nor that of [Entry.Validate]. *)
Theorem X13_unread_fields_do_not_matter
    (url_Parse mail_ParseAddress time_Parse : string -> option string) :
  (forall feed,
      Feed_Validate url_Parse mail_ParseAddress time_Parse (erase_Feed feed)
      = Feed_Validate url_Parse mail_ParseAddress time_Parse feed)
  /\ (forall entry,
         Entry_Validate url_Parse mail_ParseAddress time_Parse
           (erase_Entry entry)
         = Entry_Validate url_Parse mail_ParseAddress time_Parse entry).
Proof.
  split.
  - intros feed.
    exact (@Feed_mutind _ _ (Feed_erase_step url_Parse mail_ParseAddress
                               time_Parse)
             (Entry_erase_step url_Parse mail_ParseAddress time_Parse) feed).
  - intros entry.
    exact (@Entry_mutind _ _ (Feed_erase_step url_Parse mail_ParseAddress
                                time_Parse)
             (Entry_erase_step url_Parse mail_ParseAddress time_Parse) entry).
Qed.

(* ================================================================= *)
(** ** Reading the issues back from the text of [Error] *)

Lemma string_append_inj_l (h x y : string) :
  (h ++ x)%string = (h ++ y)%string -> x = y.
Proof.
  induction h as [|c h IH]; simpl; intros H; [exact H|].
  injection H as H. now apply IH.
Qed.

Lemma line_inj (a b r1 r2 : string) :
  no_LF a = true -> no_LF b = true ->
  (a ++ LF ++ r1)%string = (b ++ LF ++ r2)%string ->
  a = b /\ r1 = r2.
Proof.
  revert b. induction a as [|c a IH]; intros [|c' b] Ha Hb H; simpl in *.
  - injection H as H. now split.
  - injection H as Hc _. subst c'.
    apply andb_true_iff in Hb as [Hb _]. discriminate.
  - injection H as Hc _. subst c.
    apply andb_true_iff in Ha as [Ha _]. discriminate.
  - injection H as Hc H. subst c'.
    apply andb_true_iff in Ha as [_ Ha]. apply andb_true_iff in Hb as [_ Hb].
    destruct (IH b Ha Hb H) as [-> ->]. now split.
Qed.

Lemma issue_lines_cons issue l :
  issue_lines (issue :: l)
  = ("- " ++ issue ++ LF ++ issue_lines l)%string.
Proof.
  unfold issue_lines, issue_line. cbn [map fold_right].
  now rewrite !string_append_assoc.
Qed.

Lemma issue_lines_inj l1 l2 :
  forallb no_LF l1 = true -> forallb no_LF l2 = true ->
  issue_lines l1 = issue_lines l2 -> l1 = l2.
Proof.
  revert l2. induction l1 as [|a l1 IH]; intros [|b l2] H1 H2 H.
  - reflexivity.
  - rewrite issue_lines_cons in H. discriminate.
  - rewrite issue_lines_cons in H. discriminate.
  - rewrite !issue_lines_cons in H.
    apply string_append_inj_l in H.
    cbn [forallb] in H1, H2.
    apply andb_true_iff in H1 as [Ha H1]. apply andb_true_iff in H2 as [Hb H2].
    destruct (line_inj _ _ _ _ Ha Hb H) as [-> Hrest].
    f_equal. now apply IH.
Qed.

(** X14. When no issue holds a line feed, the text of [Error] determines
    the issues: two aggregators that render to the same text hold the
    same issues in the same order. *)
Theorem X14_Error_determines_issues (err err' : ValidationError) :
  forallb no_LF (issues err) = true ->
  forallb no_LF (issues err') = true ->
  ValidationError_Error err = ValidationError_Error err' ->
  issues err = issues err'.
Proof.
  intros H1 H2 H. rewrite !Error_header_lines in H.
  apply string_append_inj_l in H. now apply issue_lines_inj.
Qed.

Lemma X14_witness : issues two_issues = issues two_issues.
Proof.
  apply (@X14_Error_determines_issues two_issues two_issues);
    reflexivity.
Defined.

(* ================================================================= *)
(** ** Documents with a nil source feed report nothing *)


(** An entry with the invalid text as content and without summary
    reports the issue about the type all the same: it is merged from
    the validation of the source feed. *)
Lemma C5_counterexample :
  Entry_Content entry_content_invalid_nested = Some invalid_text
  /\ Entry_Summary entry_content_invalid_nested = None
  /\ Entry_sound entry_content_invalid_nested = true
  /\ In "Text.Type must be either: text, html or xhtml."
        (reported (Entry_Validate accept_all accept_all accept_all
                     entry_content_invalid_nested)).
Proof.
  split; [reflexivity | split; [reflexivity | split; [reflexivity|]]].
  apply occurrences_In. vm_compute. lia.
Qed.

